(** * Dynamic Event Hub: the Event model, the Socket.io handler and the
      client authentication service, embedded as Rocq functions.

    Conventions of the embedding.
    - A MongoDB collection is a finite map from the document's [_id] to its
      fields.  ObjectIds are identified with their [toString()] rendering,
      so that the source's comparisons [a.toString() === b] are equalities
      of strings.  An id that a client sends is any string: [findById]
      casts it to an ObjectId before it looks it up, and rejects where the
      cast fails or the database does; [save] writes the document, or
      rejects.
    - JavaScript numbers that hold counts, dates (milliseconds since the
      epoch) and delays are integers of [Z].
    - [new Date()] and [Date.now()] read a clock that is passed to every
      function as the argument [now].
    - What a handler asks of Socket.io (join a room, emit to a socket, to a
      room or to everybody else) is recorded, in program order, in a list of
      effects, together with its reads and writes of the event collection.
    - A promise of Mongoose that rejects is an exception at its [await];
      the [try]/[catch] of each handler is kept as it is written.  A
      handler runs from its first to its last statement as one step: what
      another handler does while it waits for the database is not
      modelled. *)

From Stdlib Require Import ZArith Lia Ascii.
From stdpp Require Import gmap strings list sorting pretty.

Open Scope Z_scope.

Abbreviation ObjectId := string.

(** ** backend/models/User.js *)
Module UserModel.

(** Modelled from the spec: models/User.js is not among the sources.  The
    spec describes a user as an ordinary record of identity, role and
    preferences; the fields kept here are the ones that the socket handler
    and the event queries read ([fullName], [avatar], [status], and the
    [firstName], [lastName] that [populate] selects). *)
Record User := mkUser {
  firstName : string;
  lastName : string;
  fullName : string;
  avatar : option string;
  account_status : string
}.

(** A fetched user document: its [_id] and its fields. *)
Definition UserDoc : Type := ObjectId * User.

(** User.findById *)
Definition findUserById (users : gmap ObjectId User) (id : option ObjectId)
    : option UserDoc :=
  id ≫= fun i => (fun u => (i, u)) <$> users !! i.

End UserModel.

(** ** backend/models/Event.js *)
Module EventModel.
Import UserModel.

Inductive EventStatus := draft | published | cancelled | postponed | completed.
Inductive Visibility := public | private | unlisted.
Inductive AttendeeStatus :=
  registered | confirmed | attended | attendee_cancelled | no_show.

#[global] Instance EventStatus_eq_dec : EqDecision EventStatus.
Proof. solve_decision. Defined.
#[global] Instance Visibility_eq_dec : EqDecision Visibility.
Proof. solve_decision. Defined.
#[global] Instance AttendeeStatus_eq_dec : EqDecision AttendeeStatus.
Proof. solve_decision. Defined.

(** pricing.tickets[i] *)
Record Ticket := mkTicket {
  price : Z;
  quantity : Z;
  sold : Z
}.

(** attendees[i]; [attendee_id] is the sub-document's own [_id]. *)
Record Attendee := mkAttendee {
  attendee_id : ObjectId;
  attendee_user : ObjectId;
  attendee_status : AttendeeStatus;
  checkInTime : option Z
}.

(** The fields of an event document that the modelled code reads or
    writes.  [pricing_tickets], [maxAttendees] and [seo_slug] may be
    absent. *)
Record Event := mkEvent {
  title : string;
  organizer : ObjectId;
  startDate : Z;
  endDate : Z;
  duration : Z;
  status : EventStatus;
  visibility : Visibility;
  pricing_tickets : option (list Ticket);
  maxAttendees : option Z;
  currentAttendees : Z;
  attendees : list Attendee;
  hasChat : bool;
  seo_slug : option string;
  updatedAt : Z
}.

(** The projection of a user that [populate('organizer',
    'firstName lastName avatar')] keeps. *)
Record OrganizerView := mkOrganizerView {
  organizer_firstName : string;
  organizer_lastName : string;
  organizer_avatar : option string
}.

Definition selectOrganizer (u : User) : OrganizerView :=
  mkOrganizerView (firstName u) (lastName u) (avatar u).

(** A value of a JavaScript number that is an integer or [Infinity]. *)
Inductive JsNumber := Finite (z : Z) | Infinity.

#[global] Instance JsNumber_eq_dec : EqDecision JsNumber.
Proof. solve_decision. Defined.

(** [!n] for a number field that may be unset: [undefined] and [0] are
    falsy. *)
Definition falsy (n : option Z) : bool :=
  match n with
  | None => true
  | Some z => z =? 0
  end.

(** virtual('availableTickets') *)
Definition availableTickets (e : Event) : Z :=
  match pricing_tickets e with
  | None => 0
  | Some tickets =>
      fold_left (fun total ticket => total + (quantity ticket - sold ticket))
                tickets 0
  end.

(** virtual('totalRevenue') *)
Definition totalRevenue (e : Event) : Z :=
  match pricing_tickets e with
  | None => 0
  | Some tickets =>
      fold_left (fun total ticket => total + (price ticket * sold ticket))
                tickets 0
  end.

(** methods.isUserRegistered *)
Definition isUserRegistered (e : Event) (userId : ObjectId) : bool :=
  existsb (fun attendee => bool_decide (attendee_user attendee = userId))
          (attendees e).

(** methods.getAvailableSpots *)
Definition getAvailableSpots (e : Event) : JsNumber :=
  if falsy (maxAttendees e) then Infinity
  else Finite (default 0 (maxAttendees e) - currentAttendees e).

(** *** The pre-save hook *)

(** [c.toLowerCase()] on an ASCII character. *)
Definition lower (c : Ascii.ascii) : Ascii.ascii :=
  let n := Ascii.N_of_ascii c in
  if ((65 <=? n) && (n <=? 90))%N then Ascii.ascii_of_N (n + 32) else c.

(** The class [[a-z0-9]]. *)
Definition slug_char (c : Ascii.ascii) : bool :=
  let n := Ascii.N_of_ascii c in
  (((97 <=? n) && (n <=? 122)) || ((48 <=? n) && (n <=? 57)))%N.

Fixpoint toLowerCase (s : string) : string :=
  match s with
  | EmptyString => EmptyString
  | String c s' => String (lower c) (toLowerCase s')
  end.

(** [s.replace(/[^a-z0-9]+/g, '-')]; [in_run] tells that the characters
    just before belong to a run that has been replaced already. *)
Fixpoint dashRuns (in_run : bool) (s : string) : string :=
  match s with
  | EmptyString => EmptyString
  | String c s' =>
      if slug_char c then String c (dashRuns false s')
      else if in_run then dashRuns true s'
      else String "-"%char (dashRuns true s')
  end.

Fixpoint dropLastDash (s : string) : string :=
  match s with
  | EmptyString => EmptyString
  | String c EmptyString => if Ascii.eqb c "-"%char then EmptyString else s
  | String c s' => String c (dropLastDash s')
  end.

(** [s.replace(/(^-|-$)/g, '')] *)
Definition trimDashes (s : string) : string :=
  dropLastDash
    match s with
    | String c s' => if Ascii.eqb c "-"%char then s' else s
    | EmptyString => EmptyString
    end.

(** The slug that the hook derives from the title at time [now]. *)
Definition slugOf (title : string) (now : Z) : string :=
  trimDashes (dashRuns false (toLowerCase title)) +:+ "-" +:+ pretty now.

(** [Math.round(n / d)] for a positive [d]: halves go up. *)
Definition roundDiv (n d : Z) : Z := (2 * n + d) / (2 * d).

(** pre('save'); [titleModified] is [this.isModified('title')]. *)
Definition preSave (titleModified : bool) (now : Z) (e : Event) : Event :=
  let slug :=
    if titleModified
       && match seo_slug e with Some (String _ _) => false | _ => true end
    then Some (slugOf (title e) now)
    else seo_slug e in
  let duration :=
    if duration e =? 0
    then roundDiv (endDate e - startDate e) (1000 * 60)
    else duration e in
  mkEvent (title e) (organizer e) (startDate e) (endDate e) duration
          (status e) (visibility e) (pricing_tickets e) (maxAttendees e)
          (currentAttendees e) (attendees e) (hasChat e) slug now.

(** *** The query of [findUpcoming] *)

(** A stored document: its [_id] and its fields. *)
Definition EventDoc : Type := ObjectId * Event.

(** The filter [{ startDate: { $gte: now }, status: 'published',
    visibility: 'public' }]. *)
Definition upcomingFilter (now : Z) (d : EventDoc) : bool :=
  (now <=? startDate d.2)
  && bool_decide (status d.2 = published)
  && bool_decide (visibility d.2 = public).

(** The order of [.sort({ startDate: 1 })]. *)
Definition byStartDate (d1 d2 : EventDoc) : Prop :=
  startDate d1.2 <= startDate d2.2.

#[global] Instance byStartDate_dec : RelDecision byStartDate.
Proof. intros d1 d2. unfold byStartDate. apply _. Defined.

(** [.limit(n)] of a MongoDB cursor: [0] asks for no limit, and a
    negative [n] bounds the result by [-n]. *)
Definition cursorLimit {A} (n : Z) (l : list A) : list A :=
  if n =? 0 then l else take (Z.abs_nat n) l.

(** [.populate('organizer', ...)]: the organizer's id is replaced by the
    selected fields of the user it refers to, if there is one. *)
Definition populateOrganizer (users : gmap ObjectId User)
    (d : EventDoc) : EventDoc * option OrganizerView :=
  (d, selectOrganizer <$> users !! organizer d.2).

(** statics.findUpcoming; [limit = None] is a call without argument. *)
Definition findUpcoming (events : gmap ObjectId Event)
    (users : gmap ObjectId User) (now : Z) (limit : option Z)
    : list (EventDoc * option OrganizerView) :=
  let limit := default 10 limit in
  populateOrganizer users <$>
    cursorLimit limit
      (merge_sort byStartDate
         (filter (fun d => upcomingFilter now d = true) (map_to_list events))).

(** *** Days until the event *)

(** [Math.ceil(n / d)] for a positive [d]. *)
Definition ceilDiv (n d : Z) : Z := - ((- n) / d).

(** The milliseconds of a day, [1000 * 60 * 60 * 24]. *)
Definition DAY : Z := 1000 * 60 * 60 * 24.

(** virtual('daysUntilEvent') *)
Definition daysUntilEvent (now : Z) (e : Event) : Z :=
  let diffTime := startDate e - now in
  ceilDiv diffTime DAY.

End EventModel.

(** ** backend/socket/socketHandler.js *)
Module SocketHandler.
Import UserModel EventModel.

Abbreviation SocketId := string.
Abbreviation Room := string.

(** *** Messages and effects *)

(** Whom an [emit] addresses. *)
Inductive Target :=
| ToSelf                          (* socket.emit *)
| ToRoomButSelf (room : Room)     (* socket.to(room).emit *)
| ToRoom (room : Room)            (* io.to(room).emit *)
| ToAllButSelf.                   (* socket.broadcast.emit *)

(** The events the server emits, with their payloads.  Free-form payloads
    of the client ([updateData], [notification], [message]) are strings. *)
Inductive Message :=
| connected (message : string) (id : ObjectId) (name : string)
    (avatar : option string) (timestamp : Z)
| error (message : string)
| user_joined_event (userId : ObjectId) (userName : string)
    (userAvatar : option string) (timestamp : Z)
| joined_event (eventId : ObjectId) (message : string)
| user_left_event (userId : ObjectId) (userName : string) (timestamp : Z)
| event_updated (eventId : ObjectId) (updateType updateData : string)
    (updatedById : ObjectId) (updatedByName : string) (timestamp : Z)
| new_event_message (id : Z) (eventId userId : ObjectId) (userName : string)
    (userAvatar : option string) (message messageType : string) (timestamp : Z)
| user_typing (userId : ObjectId) (userName : string) (eventId : ObjectId)
| user_stopped_typing (userId eventId : ObjectId)
| notification (body : string) (fromId : ObjectId) (fromName : string)
    (fromAvatar : option string) (timestamp : Z)
| event_stats (eventId : ObjectId) (totalAttendees checkedInCount : nat)
    (availableSpots : JsNumber) (onlineViewers : nat) (timestamp : Z)
| attendee_checked_in (eventId attendeeId : ObjectId) (checkInTime : Z)
    (totalCheckedIn : nat)
| user_status_change (userId : ObjectId) (userName : string)
    (status : string) (timestamp : Z).

(** What a handler does to its surroundings, in program order. *)
Inductive Effect :=
| Join (socket : SocketId) (room : Room)              (* socket.join *)
| Leave (socket : SocketId) (room : Room)             (* socket.leave *)
| Emit (socket : SocketId) (to : Target) (m : Message)
| DbFind (eventId : string)                           (* Event.findById *)
| DbSave (_id : ObjectId)                  (* event.save, when it resolves *)
| Refuse (socket : SocketId) (message : string).      (* next(new Error(..)) *)

#[global] Instance Target_eq_dec : EqDecision Target.
Proof. solve_decision. Defined.
#[global] Instance Message_eq_dec : EqDecision Message.
Proof. solve_decision. Defined.
#[global] Instance Effect_eq_dec : EqDecision Effect.
Proof. solve_decision. Defined.

(** *** The state of the server *)

(** An entry of [activeConnections]. *)
Record Connection := mkConnection {
  conn_userId : ObjectId;
  conn_user : UserDoc;
  connectedAt : Z
}.

(** An authenticated socket: [socket.id], [socket.userId], [socket.user]. *)
Record Socket := mkSocket {
  socket_id : SocketId;
  socket_userId : ObjectId;
  socket_user : UserDoc
}.

(** The three module-level maps, keyed by the strings that the handlers
    use, and the database: the two collections, keyed by ObjectId; how the
    driver casts a string to an ObjectId ([None] where it throws a
    CastError); and whether a read or a write of the database is rejected
    in this state (a lost connection, a failed validation, a version
    conflict). *)
Record World := mkWorld {
  activeConnections : gmap SocketId Connection;
  eventRooms : gmap string (gset SocketId);
  userSockets : gmap ObjectId (gset SocketId);
  events : gmap ObjectId Event;
  users : gmap ObjectId User;
  castObjectId : string -> option ObjectId;
  find_rejects : bool;
  save_rejects : bool
}.

Definition set_activeConnections
    (f : gmap SocketId Connection -> gmap SocketId Connection) (w : World) :=
  mkWorld (f (activeConnections w)) (eventRooms w) (userSockets w)
          (events w) (users w)
          (castObjectId w) (find_rejects w) (save_rejects w).
Definition set_eventRooms
    (f : gmap string (gset SocketId) -> gmap string (gset SocketId))
    (w : World) :=
  mkWorld (activeConnections w) (f (eventRooms w)) (userSockets w)
          (events w) (users w)
          (castObjectId w) (find_rejects w) (save_rejects w).
Definition set_userSockets
    (f : gmap ObjectId (gset SocketId) -> gmap ObjectId (gset SocketId))
    (w : World) :=
  mkWorld (activeConnections w) (eventRooms w) (f (userSockets w))
          (events w) (users w)
          (castObjectId w) (find_rejects w) (save_rejects w).
Definition set_events
    (f : gmap ObjectId Event -> gmap ObjectId Event) (w : World) :=
  mkWorld (activeConnections w) (eventRooms w) (userSockets w)
          (f (events w)) (users w)
          (castObjectId w) (find_rejects w) (save_rejects w).

(** The cast of a string of 24 hexadecimal digits, which every version of
    the driver accepts: the digits in lower case.  (A driver may accept
    more, a string of 12 characters for one; [castObjectId] of a [World]
    is whatever the driver at hand does.) *)
Definition is_hex (c : ascii) : bool :=
  let n := nat_of_ascii c in
  ((48 <=? n) && (n <=? 57) || (65 <=? n) && (n <=? 70)
   || (97 <=? n) && (n <=? 102))%nat.

Fixpoint all_hex (s : string) : bool :=
  match s with
  | EmptyString => true
  | String c s' => is_hex c && all_hex s'
  end.

Definition hexObjectId (s : string) : option ObjectId :=
  if (String.length s =? 24)%nat && all_hex s
  then Some (toLowerCase s)
  else None.

(** *** A monad of handlers: state, a log of effects, exceptions *)

Inductive Result (A : Type) :=
| Ok (a : A)
| Thrown (exn : string).
Arguments Ok {A} a.
Arguments Thrown {A} exn.

Definition M (A : Type) : Type := World -> Result A * World * list Effect.

Definition ret {A} (a : A) : M A := fun w => (Ok a, w, []).

Definition bind {A B} (m : M A) (f : A -> M B) : M B :=
  fun w =>
    match m w with
    | (Ok a, w1, log1) =>
        match f a w1 with
        | (r, w2, log2) => (r, w2, log1 ++ log2)
        end
    | (Thrown exn, w1, log1) => (Thrown exn, w1, log1)
    end.

Definition throw {A} (exn : string) : M A := fun w => (Thrown exn, w, []).

(** try { body } catch (error) { handler(error) } *)
Definition try_catch {A} (body : M A) (handler : string -> M A) : M A :=
  fun w =>
    match body w with
    | (Ok a, w1, log1) => (Ok a, w1, log1)
    | (Thrown exn, w1, log1) =>
        match handler exn w1 with
        | (r, w2, log2) => (r, w2, log1 ++ log2)
        end
    end.

(** The monad is used through stdpp's notations [x ← m; k] and [m ;; k]. *)
#[global] Instance M_ret : MRet M := @ret.
#[global] Instance M_bind : MBind M := fun A B f m => bind m f.

Definition get {A} (proj : World -> A) : M A := fun w => (Ok (proj w), w, []).
Definition modify (f : World -> World) : M unit := fun w => (Ok tt, f w, []).
Definition perform (ef : Effect) : M unit := fun w => (Ok tt, w, [ef]).
Definition when (b : bool) (m : M unit) : M unit := if b then m else ret tt.

(** [await promise]: the value of a promise that resolves, an exception
    for one that rejects. *)
Definition await {A} (outcome : World -> Result A) : M A :=
  fun w => (outcome w, w, []).

(** Running a handler: the new state and what it did. *)
Definition run {A} (m : M A) (w : World) : World * list Effect :=
  match m w with (_, w', log) => (w', log) end.
Definition state_after {A} (m : M A) (w : World) : World := (run m w).1.
Definition trace {A} (m : M A) (w : World) : list Effect := (run m w).2.
Definition result_of {A} (m : M A) (w : World) : Result A := (m w).1.1.

(** What [await Event.findById(eventId)] gives for the string of a
    client: an exception where the database rejects the read or the string
    is no ObjectId, else the document with that [_id], or null. *)
Definition lookupEvent (w : World) (eventId : string)
    : Result (option EventDoc) :=
  if find_rejects w then Thrown "MongoNetworkError"
  else match castObjectId w eventId with
       | None => Thrown "CastError"
       | Some _id => Ok ((fun event => (_id, event)) <$> events w !! _id)
       end.

(** Event.findById(eventId) *)
Definition findById (eventId : string) : M (option EventDoc) :=
  perform (DbFind eventId) ;;
  await (fun w => lookupEvent w eventId).

(** What [await User.findById(id)] gives for the id of a verified token,
    which the server wrote into the token from a stored [_id]. *)
Definition findUser (id : option ObjectId) : M (option UserDoc) :=
  await (fun w => if find_rejects w then Thrown "MongoNetworkError"
                  else Ok (findUserById (users w) id)).

(** event.save(): the pre-save hook runs, then the document is written
    under its [_id]; the result is the document as it is after the hook.
    A rejected save writes nothing. *)
Definition save (_id : ObjectId) (titleModified : bool) (event : Event)
    (now : Z) : M Event :=
  let saved := preSave titleModified now event in
  rejected ← get save_rejects;
  if (rejected : bool) then throw "MongoServerError"
  else
    perform (DbSave _id) ;;
    modify (set_events <[_id := saved]>) ;;
    ret saved.

Definition event_room (eventId : string) : Room := "event_" +:+ eventId.
Definition user_room (userId : ObjectId) : Room := "user_" +:+ userId.

(** *** Authentication middleware: io.use *)

(** The claims of a verified token that the middleware reads. *)
Record JwtPayload := mkJwtPayload {
  jwt_userId : option ObjectId
}.

(** socket.handshake: [auth.token] and [headers.authorization]. *)
Record Handshake := mkHandshake {
  auth_token : option string;
  header_authorization : option string
}.

(** A string value is truthy when it is defined and not empty. *)
Definition truthy (s : option string) : bool :=
  match s with
  | Some (String _ _) => true
  | _ => false
  end.

(** [a || b] on values that are strings or undefined. *)
Definition or_else (a b : option string) : option string :=
  if truthy a then a else b.

Fixpoint string_drop (n : nat) (s : string) : string :=
  match n, s with
  | O, _ => s
  | S n', String _ s' => string_drop n' s'
  | S _, EmptyString => EmptyString
  end.

(** [s.replace(pattern, replacement)] for a string pattern: the first
    occurrence only. *)
Fixpoint replace (pattern replacement s : string) : string :=
  if String.prefix pattern s
  then replacement +:+ string_drop (String.length pattern) s
  else match s with
       | EmptyString => EmptyString
       | String c s' => String c (replace pattern replacement s')
       end.

(** socket.handshake.auth.token ||
    socket.handshake.headers.authorization?.replace('Bearer ', '') *)
Definition handshakeToken (h : Handshake) : option string :=
  or_else (auth_token h)
          (replace "Bearer " EmptyString <$> header_authorization h).

(** What the middleware passes to [next]. *)
Inductive Next :=
| next_ok (socket : Socket)
| next_error (message : string).

Section Middleware.
(** [jwt.verify(token, process.env.JWT_SECRET)]: the claims of a token
    that verifies, [None] where the library throws. *)
Variable jwtVerify : string -> option JwtPayload.

Definition jwt_verify (token : string) : M JwtPayload :=
  match jwtVerify token with
  | Some decoded => ret decoded
  | None => throw "JsonWebTokenError"
  end.

Definition authenticate (id : SocketId) (h : Handshake) : M Next :=
  try_catch
    (let token := handshakeToken h in
     if negb (truthy token)
     then ret (next_error "Authentication token required")
     else
       decoded ← jwt_verify (default EmptyString token);
       user ← findUser (jwt_userId decoded);
       match user with
       | None => ret (next_error "Invalid or inactive user")
       | Some user =>
           if bool_decide (account_status user.2 ≠ "active")
           then ret (next_error "Invalid or inactive user")
           else ret (next_ok (mkSocket id user.1 user))
       end)
    (fun _ => ret (next_error "Authentication failed")).
End Middleware.

(** *** io.on('connection') and socket.on('disconnect') *)

Definition broadcastUserStatus (socket : Socket) (status : string) (now : Z)
    : M unit :=
  perform (Emit (socket_id socket) ToAllButSelf
             (user_status_change (socket_userId socket)
                (fullName (socket_user socket).2) status now)).

Definition onConnection (socket : Socket) (now : Z) : M unit :=
  let id := socket_id socket in
  let userId := socket_userId socket in
  modify (set_activeConnections
            <[id := mkConnection userId (socket_user socket) now]>) ;;
  has ← get (fun w => bool_decide (is_Some (userSockets w !! userId)));
  when (negb has) (modify (set_userSockets <[userId := ∅]>)) ;;
  modify (set_userSockets (alter (fun set => set ∪ {[id]}) userId)) ;;
  perform (Join id (user_room userId)) ;;
  perform (Emit id ToSelf
             (connected "Connected to Dynamic Event Hub"
                (socket_user socket).1 (fullName (socket_user socket).2)
                (avatar (socket_user socket).2) now)) ;;
  broadcastUserStatus socket "online" now.

(** [list.forEach(body)] *)
Fixpoint forEach {A} (l : list A) (body : A -> M unit) : M unit :=
  match l with
  | [] => ret tt
  | x :: l' => body x ;; forEach l' body
  end.

(** The body of [eventRooms.forEach] on disconnection. *)
Definition leaveRoomOnDisconnect (socket : Socket) (now : Z)
    (entry : ObjectId * gset SocketId) : M unit :=
  let '(eventId, socketSet) := entry in
  when (bool_decide (socket_id socket ∈ socketSet))
    (modify (set_eventRooms <[eventId := socketSet ∖ {[socket_id socket]}]>) ;;
     perform (Emit (socket_id socket) (ToRoomButSelf (event_room eventId))
                (user_left_event (socket_userId socket)
                   (fullName (socket_user socket).2) now))).

(** The entries of a [Map] are visited in the order of [map_to_list]. *)
Definition onDisconnect (socket : Socket) (reason : string) (now : Z)
    : M unit :=
  let id := socket_id socket in
  let userId := socket_userId socket in
  modify (set_activeConnections (delete id)) ;;
  userSocketSet ← get (fun w => userSockets w !! userId);
  match userSocketSet with
  | Some set =>
      let set' := set ∖ {[id]} in
      modify (set_userSockets <[userId := set']>) ;;
      when (bool_decide (size set' = 0%nat))
        (modify (set_userSockets (delete userId)) ;;
         broadcastUserStatus socket "offline" now)
  | None => ret tt
  end ;;
  rooms ← get (fun w => map_to_list (eventRooms w));
  forEach rooms (leaveRoomOnDisconnect socket now).

(** *** setupEventHandlers *)

Definition emit_error (socket : Socket) (message : string) : M unit :=
  perform (Emit (socket_id socket) ToSelf (error message)).

(** The access test of join_event. *)
Definition hasAccess (event : Event) (userId : ObjectId) : bool :=
  bool_decide (visibility event = public)
  || bool_decide (organizer event = userId)
  || existsb (fun attendee => bool_decide (attendee_user attendee = userId))
             (attendees event).

Definition on_join_event (socket : Socket) (eventId : string) (now : Z)
    : M unit :=
  let id := socket_id socket in
  try_catch
    (event ← findById eventId;
     match event with
     | None => emit_error socket "Event not found"
     | Some (_, event) =>
         if negb (hasAccess event (socket_userId socket))
         then emit_error socket "Access denied to this event"
         else
           perform (Join id (event_room eventId)) ;;
           has ← get (fun w => bool_decide (is_Some (eventRooms w !! eventId)));
           when (negb has) (modify (set_eventRooms <[eventId := ∅]>)) ;;
           modify (set_eventRooms (alter (fun set => set ∪ {[id]}) eventId)) ;;
           perform (Emit id (ToRoomButSelf (event_room eventId))
                      (user_joined_event (socket_userId socket)
                         (fullName (socket_user socket).2)
                         (avatar (socket_user socket).2) now)) ;;
           perform (Emit id ToSelf
                      (joined_event eventId "Successfully joined event room"))
     end)
    (fun _ => emit_error socket "Failed to join event").

Definition on_leave_event (socket : Socket) (eventId : string) (now : Z)
    : M unit :=
  let id := socket_id socket in
  perform (Leave id (event_room eventId)) ;;
  eventSocketSet ← get (fun w => eventRooms w !! eventId);
  match eventSocketSet with
  | Some set =>
      let set' := set ∖ {[id]} in
      modify (set_eventRooms <[eventId := set']>) ;;
      when (bool_decide (size set' = 0%nat))
        (modify (set_eventRooms (delete eventId)))
  | None => ret tt
  end ;;
  perform (Emit id (ToRoomButSelf (event_room eventId))
             (user_left_event (socket_userId socket)
                (fullName (socket_user socket).2) now)).

Definition on_event_update (socket : Socket)
    (eventId : string) (updateType updateData : string) (now : Z)
    : M unit :=
  try_catch
    (event ← findById eventId;
     if match event with
        | None => true
        | Some (_, event) => bool_decide (organizer event ≠ socket_userId socket)
        end
     then emit_error socket "Unauthorized to update this event"
     else
       perform (Emit (socket_id socket) (ToRoom (event_room eventId))
                  (event_updated eventId updateType updateData
                     (socket_userId socket)
                     (fullName (socket_user socket).2) now)))
    (fun _ => emit_error socket "Failed to update event").

(** *** setupChatHandlers *)

(** [messageType = None] is a payload without that field: the default
    ['text'] applies. *)
Definition on_send_event_message (socket : Socket)
    (eventId : string) (message : string) (messageType : option string)
    (now : Z) : M unit :=
  try_catch
    (let messageType := default "text" messageType in
     event ← findById eventId;
     if match event with
        | None => true
        | Some (_, event) => negb (hasChat event)
        end
     then emit_error socket "Chat not available for this event"
     else
       perform (Emit (socket_id socket) (ToRoom (event_room eventId))
                  (new_event_message now eventId (socket_userId socket)
                     (fullName (socket_user socket).2)
                     (avatar (socket_user socket).2)
                     message messageType now)))
    (fun _ => emit_error socket "Failed to send message").

Definition on_typing_start (socket : Socket) (eventId : string) : M unit :=
  perform (Emit (socket_id socket) (ToRoomButSelf (event_room eventId))
             (user_typing (socket_userId socket)
                (fullName (socket_user socket).2) eventId)).

Definition on_typing_stop (socket : Socket) (eventId : string) : M unit :=
  perform (Emit (socket_id socket) (ToRoomButSelf (event_room eventId))
             (user_stopped_typing (socket_userId socket) eventId)).

(** *** setupNotificationHandlers *)

Definition on_send_notification (socket : Socket)
    (targetUserId : string) (body : string) (now : Z) : M unit :=
  perform (Emit (socket_id socket) (ToRoom (user_room targetUserId))
             (notification body (socket_userId socket)
                (fullName (socket_user socket).2)
                (avatar (socket_user socket).2) now)).

Definition on_mark_notification_read (socket : Socket)
    (notificationId : string) : M unit :=
  ret tt.

(** *** setupRealTimeHandlers *)

(** [attendees.filter(a => a.checkInTime).length]: a date is truthy. *)
Definition checkedIn (l : list Attendee) : nat :=
  length (filter (fun a => is_Some (checkInTime a)) l).

Definition on_request_event_stats (socket : Socket) (eventId : string)
    (now : Z) : M unit :=
  try_catch
    (event ← findById eventId;
     match event with
     | None => emit_error socket "Event not found"
     | Some (_, event) =>
         viewers ← get (fun w => eventRooms w !! eventId);
         perform (Emit (socket_id socket) ToSelf
                    (event_stats eventId
                       (length (attendees event))
                       (checkedIn (attendees event))
                       (getAvailableSpots event)
                       (default 0%nat (size <$> viewers))
                       now))
     end)
    (fun _ => emit_error socket "Failed to get event stats").

(** [attendees.id(attendeeId)]: the string is cast as an ObjectId, and the
    first sub-document with that [_id] is returned, with its position in
    the array; null when there is none or the string is no ObjectId. *)
Definition attendees_id (cast : string -> option ObjectId)
    (l : list Attendee) (attendeeId : string) : option (nat * Attendee) :=
  casted ← cast attendeeId;
  list_find (fun a => attendee_id a = casted) l.

Definition set_attendees (f : list Attendee -> list Attendee) (e : Event)
    : Event :=
  mkEvent (title e) (organizer e) (startDate e) (endDate e) (duration e)
          (status e) (visibility e) (pricing_tickets e) (maxAttendees e)
          (currentAttendees e) (f (attendees e)) (hasChat e) (seo_slug e)
          (updatedAt e).

(** attendee.checkInTime = now; attendee.status = 'attended'.  The title
    is not touched, so the hook of [save] sees [isModified('title')]
    false. *)
Definition checkIn (now : Z) (a : Attendee) : Attendee :=
  mkAttendee (attendee_id a) (attendee_user a) attended (Some now).

Definition on_attendee_checkin (socket : Socket)
    (eventId attendeeId : string) (now : Z) : M unit :=
  try_catch
    (event ← findById eventId;
     match event with
     | None => emit_error socket "Unauthorized"
     | Some (_id, event) =>
         if bool_decide (organizer event ≠ socket_userId socket)
         then emit_error socket "Unauthorized"
         else
           cast ← get castObjectId;
           match attendees_id cast (attendees event) attendeeId with
           | Some (i, attendee) =>
               let event' := set_attendees <[i := checkIn now attendee]> event in
               saved ← save _id false event' now;
               perform (Emit (socket_id socket) (ToRoom (event_room eventId))
                          (attendee_checked_in eventId attendeeId now
                             (checkedIn (attendees saved))))
           | None => ret tt
           end
     end)
    (fun _ => emit_error socket "Check-in failed").

(** *** The dispatch table *)

(** What a client can send on an authenticated socket: the payload of
    each event has the fields that its handler destructures, and they are
    strings of the client's choice. *)
Inductive ClientEvent :=
| join_event (eventId : string)
| leave_event (eventId : string)
| event_update (eventId : string) (updateType updateData : string)
| send_event_message (eventId : string) (message : string)
    (messageType : option string)
| typing_start (eventId : string)
| typing_stop (eventId : string)
| send_notification (targetUserId : string) (body : string)
| mark_notification_read (notificationId : string)
| request_event_stats (eventId : string)
| attendee_checkin (eventId attendeeId : string).

Definition handle (socket : Socket) (ev : ClientEvent) (now : Z) : M unit :=
  match ev with
  | join_event eventId => on_join_event socket eventId now
  | leave_event eventId => on_leave_event socket eventId now
  | event_update eventId updateType updateData =>
      on_event_update socket eventId updateType updateData now
  | send_event_message eventId message messageType =>
      on_send_event_message socket eventId message messageType now
  | typing_start eventId => on_typing_start socket eventId
  | typing_stop eventId => on_typing_stop socket eventId
  | send_notification targetUserId body =>
      on_send_notification socket targetUserId body now
  | mark_notification_read notificationId =>
      on_mark_notification_read socket notificationId
  | request_event_stats eventId => on_request_event_stats socket eventId now
  | attendee_checkin eventId attendeeId =>
      on_attendee_checkin socket eventId attendeeId now
  end.

(** getActiveConnectionsCount *)
Definition getActiveConnectionsCount (w : World) : nat :=
  size (activeConnections w).

(** *** The server as a transition system *)

(** The socket is one of the open connections. *)
Definition is_open (w : World) (socket : Socket) : Prop :=
  ∃ c, activeConnections w !! socket_id socket = Some c
       ∧ conn_userId c = socket_userId socket.

#[global] Instance is_open_dec w socket : Decision (is_open w socket).
Proof.
  unfold is_open.
  destruct (activeConnections w !! socket_id socket) as [c|] eqn:E.
  - destruct (decide (conn_userId c = socket_userId socket)) as [Hc|Hc].
    + left. by exists c.
    + right. intros (c' & Hc' & Hu). congruence.
  - right. intros (c' & Hc' & _). congruence.
Defined.

Definition initial (w : World) : Prop :=
  activeConnections w = ∅ ∧ eventRooms w = ∅ ∧ userSockets w = ∅.

Section Server.
Variable jwtVerify : string -> option JwtPayload.

(** A connection attempt: the middleware, then the connection handler
    when the middleware calls [next()] without error. *)
Definition connect (id : SocketId) (h : Handshake) (now : Z) : M unit :=
  next ← authenticate jwtVerify id h;
  match next with
  | next_ok socket => onConnection socket now
  | next_error message => perform (Refuse id message)
  end.

(** One step of the server.  Socket.io gives a new connection an id that
    no open connection has; events and disconnections come from open
    connections; the REST API changes the collections on its own, and the
    database comes and goes.  A handler is one step: a disconnection that
    arrives while [join_event] waits for the database is not among the
    runs of this relation, so an invariant of [reachable] on [eventRooms]
    is one of these runs only. *)
Inductive step : World -> World -> Prop :=
| step_connect w id h now :
    activeConnections w !! id = None ->
    step w (state_after (connect id h now) w)
| step_event w socket ev now :
    is_open w socket ->
    step w (state_after (handle socket ev now) w)
| step_disconnect w socket reason now :
    is_open w socket ->
    step w (state_after (onDisconnect socket reason now) w)
| step_database w events' users' find' save' :
    step w (mkWorld (activeConnections w) (eventRooms w) (userSockets w)
                    events' users' (castObjectId w) find' save').

Definition reachable (w : World) : Prop :=
  ∃ w0, initial w0 ∧ rtc step w0 w.
End Server.

(** *** Utility functions exposed on [io] *)

(** An entry of the result of [getEventRoomUsers]. *)
Record RoomUser := mkRoomUser {
  room_user_id : ObjectId;
  room_user_name : string;
  room_user_avatar : option string;
  room_user_connectedAt : Z
}.

(** getEventRoomUsers: the sockets of the room are visited in the order of
    [elements]; a socket without a connection contributes nothing. *)
Definition getEventRoomUsers (w : World) (eventId : string)
    : list RoomUser :=
  let socketIds := default ∅ (eventRooms w !! eventId) in
  omap (fun socketId =>
          (fun connection =>
             mkRoomUser (conn_userId connection)
                        (fullName (conn_user connection).2)
                        (avatar (conn_user connection).2)
                        (connectedAt connection))
          <$> activeConnections w !! socketId)
       (elements socketIds).

End SocketHandler.

(** ** The client authentication service (AuthService) *)
Module AuthService.

Inductive Role := role_user | role_organizer | role_admin.

(** interface User, without its optional presentation fields. *)
Record User := mkUser {
  id : string;
  firstName : string;
  lastName : string;
  email : string;
  role : Role;
  isEmailVerified : bool
}.

(** interface AuthResponse *)
Record AuthResponse := mkAuthResponse {
  success : bool;
  message : string;
  data_token : string;
  data_user : User
}.

(** The part of an HttpErrorResponse that [handleError] reads:
    whether [error.error] is an ErrorEvent (a client-side error) and its
    message, the HTTP status, and [error.error?.message] of a server-side
    error. *)
Record HttpErrorResponse := mkHttpErrorResponse {
  clientSide : bool;
  clientMessage : string;
  http_status : Z;
  serverMessage : option string
}.

(** What [jwtDecode] returns: the [exp] claim, in seconds, if there is
    one. *)
Record Decoded := mkDecoded {
  exp : option Z
}.

Abbreviation TimerId := nat.

(** The fields of the service, and what it acts on: the two token stores,
    the subscriptions to [timer(delay)] that have neither fired nor been
    unsubscribed (each with the instant at which it fires), and the
    navigations asked of the router, oldest first. *)
Record Service := mkService {
  currentUser : option User;            (* currentUserSubject.value *)
  isAuthenticated : bool;               (* isAuthenticatedSubject.value *)
  tokenRefreshTimer : option TimerId;   (* the Subscription, or null *)
  cookie : option string;               (* cookieService, key auth_token *)
  localStorage : option string;         (* localStorage, key auth_token *)
  timers : gmap TimerId Z;
  nextTimer : TimerId;
  navigations : list string
}.

Definition REFRESH_THRESHOLD : Z := 5 * 60 * 1000.

Definition set_currentUser (u : option User) (s : Service) : Service :=
  mkService u (isAuthenticated s) (tokenRefreshTimer s) (cookie s)
            (localStorage s) (timers s) (nextTimer s) (navigations s).
Definition set_isAuthenticated (b : bool) (s : Service) : Service :=
  mkService (currentUser s) b (tokenRefreshTimer s) (cookie s)
            (localStorage s) (timers s) (nextTimer s) (navigations s).
Definition set_tokenRefreshTimer (t : option TimerId) (s : Service) : Service :=
  mkService (currentUser s) (isAuthenticated s) t (cookie s)
            (localStorage s) (timers s) (nextTimer s) (navigations s).
Definition set_cookie (c : option string) (s : Service) : Service :=
  mkService (currentUser s) (isAuthenticated s) (tokenRefreshTimer s) c
            (localStorage s) (timers s) (nextTimer s) (navigations s).
Definition set_localStorage (c : option string) (s : Service) : Service :=
  mkService (currentUser s) (isAuthenticated s) (tokenRefreshTimer s)
            (cookie s) c (timers s) (nextTimer s) (navigations s).
Definition set_timers (f : gmap TimerId Z -> gmap TimerId Z) (s : Service)
    : Service :=
  mkService (currentUser s) (isAuthenticated s) (tokenRefreshTimer s)
            (cookie s) (localStorage s) (f (timers s)) (nextTimer s)
            (navigations s).

(** router.navigate([path]) *)
Definition navigate (path : string) (s : Service) : Service :=
  mkService (currentUser s) (isAuthenticated s) (tokenRefreshTimer s)
            (cookie s) (localStorage s) (timers s) (nextTimer s)
            (navigations s ++ [path]).

(** subscription.unsubscribe() *)
Definition unsubscribe (t : TimerId) (s : Service) : Service :=
  set_timers (delete t) s.

(** The longest delay that a timer of the platform waits: 2^31 - 1
    milliseconds, a little under 25 days. *)
Definition TIMEOUT_MAX : Z := 2147483647.

(** [timer(delay)] schedules its one emission with [setInterval(.., delay)],
    which keeps a delay from 1 to [TIMEOUT_MAX] and sets any other to 1:
    a timer asked to wait longer than [TIMEOUT_MAX] fires at once.  (This
    is the rule of Node; a browser keeps the low 32 bits of the delay as a
    signed number and waits 0 for a negative one, which is the same for a
    delay from [TIMEOUT_MAX + 1] to 2^32 - 1.) *)
Definition setIntervalDelay (delay : Z) : Z :=
  if (1 <=? delay) && (delay <=? TIMEOUT_MAX) then delay else 1.

(** timer(delay).pipe(switchMap(() => this.refreshToken())).subscribe():
    a new subscription, which fires when the delay that the platform keeps
    has passed from [now]. *)
Definition subscribeTimer (delay now : Z) (s : Service) : TimerId * Service :=
  let t := nextTimer s in
  (t, mkService (currentUser s) (isAuthenticated s) (tokenRefreshTimer s)
        (cookie s) (localStorage s)
        (<[t := now + setIntervalDelay delay]> (timers s))
        (S t) (navigations s)).

Section Service.
(** environment.production *)
Variable production : bool.
(** [jwtDecode(token)]; [None] where the library throws. *)
Variable jwtDecode : string -> option Decoded.

Definition storeToken (token : string) (s : Service) : Service :=
  if production then set_cookie (Some token) s
  else set_localStorage (Some token) s.

(** [cookieService.get] yields the empty string for a missing cookie,
    which [|| null] turns into [null]. *)
Definition getStoredToken (s : Service) : option string :=
  if production then
    match cookie s with
    | Some (String c t) => Some (String c t)
    | _ => None
    end
  else localStorage s.

Definition removeStoredToken (s : Service) : Service :=
  if production then set_cookie None s else set_localStorage None s.

Definition setAuthState (token : string) (s : Service) : Service :=
  set_isAuthenticated true s.

Definition clearAuthState (s : Service) : Service :=
  set_isAuthenticated false (set_currentUser None (removeStoredToken s)).

(** [decoded.exp > Date.now() / 1000]; a missing [exp] compares false. *)
Definition isTokenValid (token : string) (now : Z) : bool :=
  match jwtDecode token with
  | Some decoded =>
      match exp decoded with
      | Some e => now <? e * 1000
      | None => false
      end
  | None => false
  end.

Definition clearTokenRefreshTimer (s : Service) : Service :=
  match tokenRefreshTimer s with
  | Some t => set_tokenRefreshTimer None (unsubscribe t s)
  | None => s
  end.

(** A missing [exp] makes [delay] NaN, and [NaN > 0] is false. *)
Definition scheduleTokenRefresh (token : string) (now : Z) (s : Service)
    : Service :=
  match jwtDecode token with
  | Some decoded =>
      match exp decoded with
      | Some e =>
          let expiryTime := e * 1000 in
          let refreshTime := expiryTime - REFRESH_THRESHOLD in
          let delay := refreshTime - now in
          if 0 <? delay then
            let s1 := clearTokenRefreshTimer s in
            let '(t, s2) := subscribeTimer delay now s1 in
            set_tokenRefreshTimer (Some t) s2
          else s
      | None => s
      end
  | None => s
  end.

Definition handleAuthSuccess (token : string) (user : User) (now : Z)
    (s : Service) : Service :=
  scheduleTokenRefresh token now
    (set_currentUser (Some user) (setAuthState token (storeToken token s))).

Definition handleLogout (s : Service) : Service :=
  navigate "/login" (clearTokenRefreshTimer (clearAuthState s)).

(** handleError: the new state and the message of the error it
    rethrows. *)
Definition handleError (error : HttpErrorResponse) (s : Service)
    : Service * string :=
  if clientSide error then (s, clientMessage error)
  else if http_status error =? 401 then
    (handleLogout s, "Authentication failed")
  else
    match serverMessage error with
    | Some (String c m) => (s, String c m)
    | _ => (s, "Server error: " +:+ pretty (http_status error))
    end.

(** *** The HTTP calls of the service and their callbacks *)

Inductive Call :=
| login | register | logout | getUserProfile | updateProfile
| changePassword | forgotPassword | resetPassword | verifyEmail
| refreshToken.

(** [response.success && response.data.token] *)
Definition carriesToken (response : AuthResponse) : bool :=
  success response
  && match data_token response with String _ _ => true | _ => false end.

(** The [tap] of each call, run when its response arrives. *)
Definition onResponse (c : Call) (response : AuthResponse) (now : Z)
    (s : Service) : Service :=
  match c with
  | login | register | resetPassword =>
      if carriesToken response
      then handleAuthSuccess (data_token response) (data_user response) now s
      else s
  | logout => handleLogout s
  | getUserProfile =>
      if success response
      then set_currentUser (Some (data_user response)) s
      else s
  | updateProfile =>
      if success response then
        match currentUser s with
        | Some _ => set_currentUser (Some (data_user response)) s
        | None => s
        end
      else s
  | refreshToken =>
      if carriesToken response
      then scheduleTokenRefresh (data_token response) now
             (storeToken (data_token response) s)
      else s
  | changePassword | forgotPassword | verifyEmail => s
  end.

(** The [catchError] of each call, run when the request fails. *)
Definition onError (c : Call) (error : HttpErrorResponse) (s : Service)
    : Service :=
  match c with
  | logout | refreshToken => handleLogout s
  | _ => (handleError error s).1
  end.

(** The error callback of [loadUserProfile], which runs after the
    [catchError] of [getUserProfile]. *)
Definition loadUserProfile_error (error : HttpErrorResponse) (s : Service)
    : Service :=
  clearAuthState (onError getUserProfile error s).

(** initializeAuth; an empty stored token is falsy, and
    [loadUserProfile] only starts a request, whose callbacks run later. *)
Definition initializeAuth (now : Z) (s : Service) : Service :=
  match getStoredToken s with
  | Some (String c t) =>
      let token := String c t in
      if isTokenValid token now
      then scheduleTokenRefresh token now (setAuthState token s)
      else clearAuthState s
  | _ => clearAuthState s
  end.

(** The service right after its field initialisers, over given stores. *)
Definition fresh (cookie localStorage : option string) : Service :=
  mkService None false None cookie localStorage ∅ 0%nat [].

(** *** The service as a transition system *)

(** A step is the arrival of a response or of an error for one of the
    calls, or a timer that fires: its subscription leaves [timers] and
    goes on to the refresh request, whose callbacks are steps of their
    own. *)
Inductive step : Service -> Service -> Prop :=
| step_response s c response now : step s (onResponse c response now s)
| step_error s c error : step s (onError c error s)
| step_profile_error s error : step s (loadUserProfile_error error s)
| step_fire s t due :
    timers s !! t = Some due -> step s (set_timers (delete t) s).

Definition reachable (s : Service) : Prop :=
  ∃ cookie localStorage now,
    rtc step (initializeAuth now (fresh cookie localStorage)) s.
(** *** refreshToken, up to the request *)

(** What a call of [refreshToken] does at once: it fails with 'No token
    available' when no token is stored (an empty one is falsy), and
    otherwise posts the stored token to /auth/refresh. *)
Inductive RefreshStart :=
| refresh_failed (message : string)
| refresh_posted (token : string).

Definition refreshToken_start (s : Service) : RefreshStart :=
  match getStoredToken s with
  | Some (String c t) => refresh_posted (String c t)
  | _ => refresh_failed "No token available"
  end.

(** getToken *)
Definition getToken (s : Service) : option string := getStoredToken s.

End Service.

(** *** Roles *)

(** The strings of the union type ['user' | 'organizer' | 'admin']. *)
Definition roleName (r : Role) : string :=
  match r with
  | role_user => "user"
  | role_organizer => "organizer"
  | role_admin => "admin"
  end.

(** hasRole *)
Definition hasRole (role' : string) (s : Service) : bool :=
  match currentUser s with
  | Some user => bool_decide (roleName (role user) = role')
  | None => false
  end.

(** hasAnyRole; [roles.includes(x)] is membership. *)
Definition hasAnyRole (roles : list string) (s : Service) : bool :=
  match currentUser s with
  | Some user => bool_decide (roleName (role user) ∈ roles)
  | None => false
  end.

End AuthService.

(** ** frontend/src/app/app.component.ts *)
Module AppComponent.

(** [url.startsWith(route)] *)
Definition startsWith (url route : string) : bool := String.prefix route url.

Definition hideNavbarRoutes : list string :=
  ["/login"; "/register"; "/forgot-password"; "/reset-password"].

Definition hideFooterRoutes : list string := ["/dashboard"; "/admin"].

(** The two flags that the handler of NavigationEnd sets from [event.url]. *)
Definition showNavbar (url : string) : bool :=
  negb (existsb (fun route => startsWith url route) hideNavbarRoutes).

Definition showFooter (url : string) : bool :=
  negb (existsb (fun route => startsWith url route) hideFooterRoutes).

(** The object [routeTitles], its keys in the order they are written. *)
Definition routeTitles : list (string * string) :=
  [("/", "Home"); ("/events", "Events"); ("/dashboard", "Dashboard");
   ("/profile", "Profile"); ("/login", "Login"); ("/register", "Register");
   ("/about", "About Us"); ("/contact", "Contact")].

(** [routeTitles[key]] *)
Fixpoint titleOf (table : list (string * string)) (key : string)
    : option string :=
  match table with
  | [] => None
  | (k, v) :: table' => if String.eqb k key then Some v else titleOf table' key
  end.

(** The test of [Object.keys(routeTitles).find]. *)
Definition matchesRoute (url route : string) : bool :=
  String.eqb url route || (negb (String.eqb route "/") && startsWith url route).

Definition matchedRoute (url : string) : option string :=
  List.find (matchesRoute url) (routeTitles.*1).

(** updatePageTitle: the value given to [document.title]. *)
Definition updatePageTitle (url : string) : string :=
  match matchedRoute url with
  | Some route =>
      match titleOf routeTitles route with
      | Some t => t +:+ " - Dynamic Event Hub"
      | None => "undefined - Dynamic Event Hub"
      end
  | None => "Dynamic Event Hub"
  end.

(** What the subscription to [currentUser$] asks of the socket service. *)
Inductive SocketCommand := socket_connect | socket_disconnect.

Definition onCurrentUser {A} (user : option A) : SocketCommand :=
  match user with
  | Some _ => socket_connect
  | None => socket_disconnect
  end.

End AppComponent.

(** ** Sample data *)
Module Samples.
Import UserModel EventModel.

Definition alice : User := mkUser "Alice" "Ng" "Alice Ng" None "active".
Definition bob : User := mkUser "Bob" "Roy" "Bob Roy" (Some "bob.png") "active".
Definition carol : User := mkUser "Carol" "Diaz" "Carol Diaz" None "suspended".

(** The ids of two events and of two attendee entries. *)
Definition e1 : ObjectId := "0000000000000000000000e1".
Definition e2 : ObjectId := "0000000000000000000000e2".
Definition e3 : ObjectId := "0000000000000000000000e3".
Definition a1 : ObjectId := "0000000000000000000000a1".
Definition a2 : ObjectId := "0000000000000000000000a2".

Definition people : gmap ObjectId User :=
  {[ "u1" := alice; "u2" := bob; "u3" := carol ]}.

(** A public, published event organised by u1, with one attendee. *)
Definition gala : Event :=
  mkEvent "Spring Gala" "u1" 5000 125000 2 published public
          (Some [mkTicket 10 100 30; mkTicket 25 20 20])
          (Some 50) 20
          [mkAttendee a1 "u2" registered None] true
          (Some "spring-gala-1") 0.

(** A private event organised by u1, overbooked, without chat. *)
Definition retreat : Event :=
  mkEvent "Board Retreat" "u1" 7000 8000 0 published private None (Some 10) 12
          [mkAttendee a2 "u2" confirmed None] false None 0.

(** A private event organised by u1, with chat and no attendee. *)
Definition salon : Event :=
  mkEvent "Winter Salon" "u1" 9000 9500 0 published private None None 0
          [] true None 0.

Definition catalogue : gmap ObjectId Event :=
  {[ e1 := gala; e2 := retreat ]}.

Import SocketHandler.

(** A verifier that accepts one token, issued to u2. *)
Definition verify (token : string) : option JwtPayload :=
  if decide (token = "tok-bob") then Some (mkJwtPayload (Some "u2")) else None.

Definition bearer : Handshake := mkHandshake None (Some "Bearer tok-bob").
Definition anonymous : Handshake := mkHandshake None None.

(** A server with no open connection over these collections. *)
Definition hall : World :=
  mkWorld ∅ ∅ ∅ catalogue people SocketHandler.hexObjectId false false.

(** The same server over a collection with the private salon. *)
Definition parlour : World :=
  mkWorld ∅ ∅ ∅ {[ e3 := salon ]} people SocketHandler.hexObjectId false false.

(** The same server while the database rejects every write. *)
Definition readonly : World :=
  mkWorld ∅ ∅ ∅ catalogue people SocketHandler.hexObjectId false true.

Definition alice_socket : Socket := mkSocket "s1" "u1" ("u1", alice).
Definition bob_socket : Socket := mkSocket "s2" "u2" ("u2", bob).
Definition carol_socket : Socket := mkSocket "s3" "u3" ("u3", carol).

(** A decoder that knows two tokens: one expires at second 2000, the
    other 30 days after second 1000. *)
Definition decode (token : string) : option AuthService.Decoded :=
  if decide (token = "jwt") then Some (AuthService.mkDecoded (Some 2000))
  else if decide (token = "jwt-month")
  then Some (AuthService.mkDecoded (Some (1000 + 30 * 86400)))
  else None.

(** A signed-in development client with a refresh timer pending. *)
Definition session : AuthService.Service :=
  AuthService.initializeAuth false decode 1000000
    (AuthService.fresh None (Some "jwt")).

Definition unauthorized : AuthService.HttpErrorResponse :=
  AuthService.mkHttpErrorResponse false EmptyString 401 (Some "jwt expired").

End Samples.

(** ** Sample states *)
Module Scenes.
Import UserModel EventModel SocketHandler Samples.

(** The server after u2 has connected on socket s2. *)
Definition lobby : World := state_after (connect verify "s2" bearer 0) hall.

(** The server after that socket has joined the room of e1. *)
Definition foyer : World :=
  state_after (handle bob_socket (join_event e1) 1) lobby.

End Scenes.

(** * Properties *)

(** ** Vocabulary of the statements *)

(** The sum of a list of integers. *)
Definition sumZ (l : list Z) : Z := foldr Z.add 0 l.

(** A stored event that starts at [now] or later, is published and is
    public. *)
Definition upcoming (events : gmap ObjectId EventModel.Event) (now : Z)
    (d : EventModel.EventDoc) : Prop :=
  events !! d.1 = Some d.2
  ∧ now <= EventModel.startDate d.2
  ∧ EventModel.status d.2 = EventModel.published
  ∧ EventModel.visibility d.2 = EventModel.public.

(** The requester may enter the room of the event: the event is public, or
    the requester organises it, or the requester is one of its attendees. *)
Definition may_join (e : EventModel.Event) (userId : ObjectId) : Prop :=
  EventModel.visibility e = EventModel.public
  ∨ EventModel.organizer e = userId
  ∨ ∃ a, a ∈ EventModel.attendees e ∧ EventModel.attendee_user a = userId.

(** An effect that reaches other sockets or changes a stored document: an
    emission that is not only to the sender, or a save. *)
Definition reaches_others (ef : SocketHandler.Effect) : bool :=
  match ef with
  | SocketHandler.Emit _ SocketHandler.ToSelf _ => false
  | SocketHandler.Emit _ _ _ => true
  | SocketHandler.DbSave _ => true
  | _ => false
  end.






(** The handshake carries a token that verifies and names a stored user
    whose status is 'active', and the database answers. *)
Definition authentic (jwtVerify : string -> option SocketHandler.JwtPayload)
    (h : SocketHandler.Handshake) (w : SocketHandler.World)
    (userId : ObjectId) (user : UserModel.User) : Prop :=
  ∃ token decoded,
    SocketHandler.handshakeToken h = Some token ∧ token ≠ EmptyString
    ∧ jwtVerify token = Some decoded
    ∧ SocketHandler.jwt_userId decoded = Some userId
    ∧ SocketHandler.find_rejects w = false
    ∧ SocketHandler.users w !! userId = Some user
    ∧ UserModel.account_status user = "active".

(** The messages with which the middleware refuses a connection. *)
Definition authentication_errors : list string :=
  ["Authentication token required"; "Authentication failed";
   "Invalid or inactive user"].

(** What one round of [eventRooms.forEach] does to the map on
    disconnection. *)
Definition forget (id : SocketHandler.SocketId)
    (rooms : gmap string (gset SocketHandler.SocketId))
    (entry : string * gset SocketHandler.SocketId)
    : gmap string (gset SocketHandler.SocketId) :=
  if decide (id ∈ entry.2) then <[entry.1 := entry.2 ∖ {[id]}]> rooms
  else rooms.

(** The effect is a 'user_left_event' sent to the others of a room. *)
Definition is_user_left (ef : SocketHandler.Effect) : Prop :=
  ∃ id room userId userName timestamp,
    ef = SocketHandler.Emit id (SocketHandler.ToRoomButSelf room)
           (SocketHandler.user_left_event userId userName timestamp).

(** The broadcast that announces that the user of a socket has gone
    offline. *)
Definition offline (socket : SocketHandler.Socket) (now : Z)
    : SocketHandler.Effect :=
  SocketHandler.Emit (SocketHandler.socket_id socket) SocketHandler.ToAllButSelf
    (SocketHandler.user_status_change (SocketHandler.socket_userId socket)
       (UserModel.fullName (SocketHandler.socket_user socket).2) "offline" now).

(** The bookkeeping invariant of the server: a socket listed under a user
    is an open connection of that user, no user is listed with an empty
    set, and every open connection is listed under its user. *)
Definition consistent (w : SocketHandler.World) : Prop :=
  (∀ userId set, SocketHandler.userSockets w !! userId = Some set ->
     set ≠ ∅
     ∧ ∀ id, id ∈ set ->
         ∃ c, SocketHandler.activeConnections w !! id = Some c
              ∧ SocketHandler.conn_userId c = userId)
  ∧ (∀ id c, SocketHandler.activeConnections w !! id = Some c ->
       ∃ set, SocketHandler.userSockets w !! SocketHandler.conn_userId c = Some set
              ∧ id ∈ set).

(** The invariant of the client service: every pending timer is the one
    held in [tokenRefreshTimer], and that one was created earlier. *)
Definition held (s : AuthService.Service) : Prop :=
  (∀ t due, AuthService.timers s !! t = Some due ->
     AuthService.tokenRefreshTimer s = Some t)
  ∧ (∀ t, AuthService.tokenRefreshTimer s = Some t ->
       (t < AuthService.nextTimer s)%nat).

(** The first and the last character of a string. *)
Definition first_char (s : string) : option ascii :=
  match s with
  | EmptyString => None
  | String c _ => Some c
  end.

Fixpoint last_char (s : string) : option ascii :=
  match s with
  | EmptyString => None
  | String c EmptyString => Some c
  | String _ s' => last_char s'
  end.

(** Every character of the string is a lowercase letter, a digit or a
    dash. *)
Fixpoint slug_chars (s : string) : Prop :=
  match s with
  | EmptyString => True
  | String c s' =>
      (EventModel.slug_char c = true ∨ c = "-"%char) ∧ slug_chars s'
  end.

(** No dash of the string is followed by another dash. *)
Fixpoint single_dashes (s : string) : Prop :=
  match s with
  | EmptyString => True
  | String c s' =>
      (c = "-"%char -> first_char s' ≠ Some "-"%char) ∧ single_dashes s'
  end.

(** A sequence of saves of one document, each with its
    [isModified('title')] and its time. *)
Definition saves (l : list (bool * Z)) (e : EventModel.Event)
    : EventModel.Event :=
  foldl (fun e save => EventModel.preSave save.1 save.2 e) e l.

(** Every socket tracked in a room of [eventRooms] is an open
    connection. *)
Definition rooms_open (w : SocketHandler.World) : Prop :=
  ∀ eventId set id,
    SocketHandler.eventRooms w !! eventId = Some set -> id ∈ set ->
    is_Some (SocketHandler.activeConnections w !! id).

(** What leave_event does to [eventRooms]. *)
Definition room_left (id : SocketHandler.SocketId) (eventId : string)
    (rooms : gmap string (gset SocketHandler.SocketId))
    : gmap string (gset SocketHandler.SocketId) :=
  match rooms !! eventId with
  | Some set =>
      if decide (set ∖ {[id]} = ∅) then delete eventId rooms
      else <[eventId := set ∖ {[id]}]> rooms
  | None => rooms
  end.

(** What an accepted join_event does to [eventRooms]. *)
Definition room_joined (id : SocketHandler.SocketId) (eventId : string)
    (rooms : gmap string (gset SocketHandler.SocketId))
    : gmap string (gset SocketHandler.SocketId) :=
  <[eventId := default ∅ (rooms !! eventId) ∪ {[id]}]> rooms.

(** The expiry, in seconds, that the decoder reads in a token. *)
Definition jwtDecode_exp (jwtDecode : string -> option AuthService.Decoded)
    (token : string) : option Z :=
  jwtDecode token ≫= AuthService.exp.

(** A service that says it is authenticated has a non-empty token in its
    store. *)
Definition token_kept (production : bool) (s : AuthService.Service) : Prop :=
  AuthService.isAuthenticated s = true ->
  ∃ c t, AuthService.getStoredToken production s = Some (String c t).

(** ** The Event model *)
Section EventProperties.
Import UserModel EventModel.

Lemma fold_left_remaining (l : list Ticket) (acc : Z) :
  fold_left (fun total ticket => total + (quantity ticket - sold ticket)) l acc
  = acc + sumZ ((fun t => quantity t - sold t) <$> l).
Proof.
  revert acc. induction l as [|t l IH]; intros acc.
  - unfold sumZ. simpl. lia.
  - simpl. rewrite IH. unfold sumZ. simpl. symmetry. apply Z.add_assoc.
Qed.

(** C8: [availableTickets] is the sum over [pricing.tickets] of
    [quantity - sold], and 0 when the array is absent. *)
Theorem availableTickets_sum (e : Event) :
  availableTickets e =
    match pricing_tickets e with
    | Some tickets => sumZ ((fun t => quantity t - sold t) <$> tickets)
    | None => 0
    end.
Proof.
  unfold availableTickets. destruct (pricing_tickets e) as [l|]; [|done].
  by rewrite fold_left_remaining.
Qed.

(** The hook on concrete documents: a new title gets a slug, and a missing
    duration is computed in minutes. *)
Example slugOf_title :
  slugOf "  Spring Gala: 2nd Edition! " 7 = "spring-gala-2nd-edition-7".
Proof. reflexivity. Qed.

Example preSave_retreat :
  duration (preSave false 9 Samples.retreat) = 0
  ∧ updatedAt (preSave false 9 Samples.retreat) = 9
  ∧ seo_slug (preSave true 9 Samples.retreat) = Some "board-retreat-9".
Proof. by vm_compute. Qed.

#[local] Instance byStartDate_total : Total byStartDate.
Proof. intros d1 d2. unfold byStartDate. lia. Qed.
#[local] Instance byStartDate_trans : Transitive byStartDate.
Proof. intros d1 d2 d3. unfold byStartDate. lia. Qed.

Lemma upcomingFilter_upcoming events now d :
  d ∈ filter (fun d => upcomingFilter now d = true) (map_to_list events) ->
  upcoming events now d.
Proof.
  rewrite list_elem_of_filter. intros [Hf Hd].
  destruct d as [k e]. apply elem_of_map_to_list in Hd.
  unfold upcomingFilter in Hf. simpl in *.
  apply andb_true_iff in Hf as [Hf Hv]. apply andb_true_iff in Hf as [Ht Hs].
  apply bool_decide_eq_true in Hv, Hs. apply Z.leb_le in Ht.
  by repeat split.
Qed.

Lemma cursorLimit_subseteq {A} n (l : list A) : cursorLimit n l ⊆ l.
Proof.
  unfold cursorLimit. destruct (n =? 0); [done | apply subseteq_take].
Qed.

Lemma cursorLimit_sorted {A} (R : relation A) n (l : list A) :
  StronglySorted R l -> StronglySorted R (cursorLimit n l).
Proof.
  unfold cursorLimit. destruct (n =? 0); [done|].
  intros Hl. rewrite <- (take_drop (Z.abs_nat n) l) in Hl.
  by apply StronglySorted_app_1_l in Hl.
Qed.

Lemma cursorLimit_length {A} n (l : list A) :
  0 < n -> Z.of_nat (length (cursorLimit n l)) <= n.
Proof.
  intros Hn. unfold cursorLimit.
  destruct (n =? 0) eqn:E; [apply Z.eqb_eq in E; lia|].
  rewrite length_take. lia.
Qed.

(** C7, amended: whatever the limit, [findUpcoming] returns stored events
    that start at [now] or later, are published and are public, in
    ascending order of [startDate]; when the limit is positive (10 when
    the argument is omitted) it returns at most that many events. *)
Theorem findUpcoming_positive_limit events users now limit :
  let result := findUpcoming events users now limit in
  Forall (fun r => upcoming events now r.1) result
  ∧ StronglySorted
      (fun r1 r2 => startDate r1.1.2 <= startDate r2.1.2) result
  ∧ (0 < default 10 limit ->
     Z.of_nat (length result) <= default 10 limit).
Proof.
  unfold findUpcoming. cbv zeta.
  set (n := default 10 limit).
  set (matching :=
         filter (fun d => upcomingFilter now d = true) (map_to_list events)).
  split; [|split].
  - rewrite Forall_fmap. apply Forall_forall. intros d Hd. simpl.
    apply upcomingFilter_upcoming.
    apply cursorLimit_subseteq in Hd.
    by rewrite merge_sort_Permutation in Hd.
  - apply (StronglySorted_fmap _ byStartDate); [done|].
    apply cursorLimit_sorted, StronglySorted_merge_sort; apply _.
  - intros Hn. rewrite length_fmap. by apply cursorLimit_length.
Qed.

Lemma findUpcoming_positive_limit_witness :
  0 < default 10 (Some 1)
  ∧ Z.of_nat (length (findUpcoming Samples.catalogue Samples.people 0 (Some 1)))
    <= default 10 (Some 1).
Proof.
  split; [done|].
  apply (findUpcoming_positive_limit Samples.catalogue Samples.people 0 (Some 1)).
  done.
Defined.

(** C7 as stated fails at [limit = 0]: the cursor is then unlimited, and
    the one upcoming event of the catalogue is returned. *)
Lemma findUpcoming_limit_zero :
  ¬ (Z.of_nat (length (findUpcoming Samples.catalogue Samples.people 0 (Some 0)))
     <= default 10 (Some 0)).
Proof. vm_compute. intros H. by apply H. Qed.

End EventProperties.

(** ** The socket handler *)
Section SocketProperties.
Import UserModel EventModel SocketHandler.

(** Unfolds the monad down to matches on the state. *)
Ltac run_handler :=
  unfold trace, state_after, run, try_catch, findById, findUser, save,
    emit_error, when, await, mbind, M_bind, mret, M_ret, bind, ret, throw,
    perform, get, modify;
  simpl.

(** Membership, or not, of an effect in a log that is written out. *)
Ltac in_log := rewrite ?elem_of_cons, ?elem_of_nil; intuition congruence.


(** C9: [getAvailableSpots] is [Infinity] when [maxAttendees] is unset or
    0, and [maxAttendees - currentAttendees] otherwise, which can be
    negative; request_event_stats reports it as [availableSpots] of the
    event that the fetch gives. *)
Theorem getAvailableSpots_reported :
  (∀ e : Event,
     getAvailableSpots e =
       match maxAttendees e with
       | None | Some 0 => Infinity
       | Some m => Finite (m - currentAttendees e)
       end)
  ∧ (∃ (e : Event) (z : Z), getAvailableSpots e = Finite z ∧ z < 0)
  ∧ (∀ socket eventId now w,
       match lookupEvent w eventId with
       | Ok (Some (_, e)) =>
           trace (on_request_event_stats socket eventId now) w =
             [DbFind eventId;
              Emit (socket_id socket) ToSelf
                (event_stats eventId
                   (length (attendees e)) (checkedIn (attendees e))
                   (getAvailableSpots e)
                   (default 0%nat (size <$> eventRooms w !! eventId))
                   now)]
       | Ok None =>
           trace (on_request_event_stats socket eventId now) w =
             [DbFind eventId;
              Emit (socket_id socket) ToSelf (error "Event not found")]
       | Thrown _ =>
           trace (on_request_event_stats socket eventId now) w =
             [DbFind eventId;
              Emit (socket_id socket) ToSelf
                (error "Failed to get event stats")]
       end).
Proof.
  split; [|split].
  - intros e. unfold getAvailableSpots, falsy.
    destruct (maxAttendees e) as [[| |]|]; done.
  - exists Samples.retreat, (-2). by vm_compute.
  - intros socket eventId now w.
    unfold on_request_event_stats. run_handler.
    by destruct (lookupEvent w eventId) as [[[_id e]|]|exn] eqn:E.
Qed.

(** The cast of ids on the sample collection: the stored id, another
    spelling of it, and a string that is no ObjectId. *)
Example lookupEvent_spellings :
  lookupEvent Samples.hall Samples.e1 = Ok (Some (Samples.e1, Samples.gala))
  ∧ lookupEvent Samples.hall "0000000000000000000000E1"
    = Ok (Some (Samples.e1, Samples.gala))
  ∧ lookupEvent Samples.hall "0000000000000000000000e9" = Ok None
  ∧ lookupEvent Samples.hall "e1" = Thrown "CastError".
Proof. by vm_compute. Qed.

(** The names of the rooms, as the handlers spell them. *)
Example room_names :
  event_room Samples.e1 = "event_0000000000000000000000e1"
  ∧ user_room "u2" = "user_u2".
Proof. done. Qed.

Lemma hasAccess_may_join e userId :
  hasAccess e userId = true <-> may_join e userId.
Proof.
  unfold hasAccess, may_join.
  rewrite !orb_true_iff, !bool_decide_eq_true, existsb_exists.
  split.
  - intros [[H|H]|(a & Ha & H)]; auto.
    right; right. exists a. apply bool_decide_eq_true in H.
    by rewrite list_elem_of_In.
  - intros [H|[H|(a & Ha & H)]]; auto.
    right. exists a. rewrite <- list_elem_of_In.
    by rewrite bool_decide_eq_true.
Qed.

(** C5: join_event adds the socket to the room [event_<eventId>] and to
    the set of [eventRooms] under [eventId], and confirms with
    'joined_event', exactly when the fetch gives an event and the requester
    may join it; in every other case, a fetch that is rejected among them,
    it emits one 'error' to the requester and changes nothing. *)
Theorem join_event_access socket eventId now w :
  let w' := state_after (on_join_event socket eventId now) w in
  let log := trace (on_join_event socket eventId now) w in
  let id := socket_id socket in
  let granted :=
    ∃ _id e, lookupEvent w eventId = Ok (Some (_id, e))
             ∧ may_join e (socket_userId socket) in
  (Join id ("event_" +:+ eventId) ∈ log <-> granted)
  ∧ (Emit id ToSelf (joined_event eventId "Successfully joined event room")
       ∈ log <-> granted)
  ∧ (granted ->
     eventRooms w' !! eventId
       = Some (default ∅ (eventRooms w !! eventId) ∪ {[id]})
     ∧ (∀ other, other ≠ eventId ->
          eventRooms w' !! other = eventRooms w !! other)
     ∧ log = [DbFind eventId;
              Join id ("event_" +:+ eventId);
              Emit id (ToRoomButSelf ("event_" +:+ eventId))
                (user_joined_event (socket_userId socket)
                   (fullName (socket_user socket).2)
                   (avatar (socket_user socket).2) now);
              Emit id ToSelf
                (joined_event eventId "Successfully joined event room")])
  ∧ (¬ granted ->
     (∃ message, log = [DbFind eventId; Emit id ToSelf (error message)])
     ∧ w' = w)
  ∧ (∀ exn, lookupEvent w eventId = Thrown exn ->
       log = [DbFind eventId; Emit id ToSelf (error "Failed to join event")]).
Proof.
  cbv zeta. unfold on_join_event. run_handler.
  destruct (lookupEvent w eventId) as [[[_id e]|]|exn] eqn:E; simpl.
  - destruct (hasAccess e (socket_userId socket)) eqn:A; simpl.
    + assert (G : ∃ _id0 e0, Ok (Some (_id, e)) = Ok (Some (_id0, e0))
                    ∧ may_join e0 (socket_userId socket)).
      { exists _id, e. split; [done|]. by apply hasAccess_may_join. }
      destruct (eventRooms w !! eventId) as [set|] eqn:R; simpl.
      * repeat split; try done; try in_log.
        -- by rewrite lookup_alter_eq, R.
        -- intros other Ho. by rewrite lookup_alter_ne.
      * repeat split; try done; try in_log.
        -- by rewrite lookup_alter_eq, lookup_insert_eq.
        -- intros other Ho. by rewrite lookup_alter_ne, lookup_insert_ne.
    + assert (G : ¬ ∃ _id0 e0, Ok (Some (_id, e)) = Ok (Some (_id0, e0))
                      ∧ may_join e0 (socket_userId socket)).
      { intros (_id0 & e0 & [= <- <-] & Hj).
        apply hasAccess_may_join in Hj. congruence. }
      repeat split; try done; try in_log. by eexists.
  - assert (G : ¬ ∃ _id0 e0,
                (Ok None : Result (option EventDoc)) = Ok (Some (_id0, e0))
                ∧ may_join e0 (socket_userId socket)).
    { by intros (_id0 & e0 & ? & _). }
    repeat split; try done; try in_log. by eexists.
  - assert (G : ¬ ∃ _id0 e0,
                (Thrown exn : Result (option EventDoc)) = Ok (Some (_id0, e0))
                ∧ may_join e0 (socket_userId socket)).
    { by intros (_id0 & e0 & ? & _). }
    repeat split; try done; try in_log. by eexists.
Qed.

Lemma join_event_access_witness :
  ((∃ _id e, lookupEvent Samples.hall "0000000000000000000000E1"
               = Ok (Some (_id, e)) ∧ may_join e "u2")
   ∧ eventRooms
       (state_after
          (on_join_event Samples.bob_socket "0000000000000000000000E1" 0)
          Samples.hall)
       !! "0000000000000000000000E1" = Some {["s2"]}
   ∧ Join "s2" "event_0000000000000000000000E1"
       ∈ trace (on_join_event Samples.bob_socket "0000000000000000000000E1" 0)
           Samples.hall)
  ∧ ((¬ ∃ _id e, lookupEvent Samples.hall Samples.e2 = Ok (Some (_id, e))
                 ∧ may_join e "u3")
     ∧ state_after (on_join_event Samples.carol_socket Samples.e2 0) Samples.hall
       = Samples.hall)
  ∧ ((¬ ∃ _id e, lookupEvent Samples.hall "e1" = Ok (Some (_id, e))
                 ∧ may_join e "u2")
     ∧ trace (on_join_event Samples.bob_socket "e1" 0) Samples.hall
       = [DbFind "e1"; Emit "s2" ToSelf (error "Failed to join event")]).
Proof.
  assert (G : ∃ _id e, lookupEvent Samples.hall "0000000000000000000000E1"
                         = Ok (Some (_id, e)) ∧ may_join e "u2").
  { exists Samples.e1, Samples.gala. split; [reflexivity | by left]. }
  assert (D : ¬ ∃ _id e, lookupEvent Samples.hall Samples.e2
                           = Ok (Some (_id, e)) ∧ may_join e "u3").
  { intros (_id & e & He & Hj). vm_compute in He. injection He as <- <-.
    apply hasAccess_may_join in Hj. vm_compute in Hj. discriminate. }
  assert (C : ¬ ∃ _id e, lookupEvent Samples.hall "e1" = Ok (Some (_id, e))
                         ∧ may_join e "u2").
  { intros (_id & e & He & _). vm_compute in He. discriminate. }
  split; [|split]; (split; [done|]).
  - destruct (join_event_access Samples.bob_socket "0000000000000000000000E1"
                0 Samples.hall) as (H1 & _ & H & _).
    destruct (H G) as (-> & _ & _). split; [reflexivity | by apply H1].
  - destruct (join_event_access Samples.carol_socket Samples.e2 0 Samples.hall)
      as (_ & _ & _ & H & _).
    by apply H.
  - destruct (join_event_access Samples.bob_socket "e1" 0 Samples.hall)
      as (_ & _ & _ & _ & H).
    by apply (H "CastError").
Defined.

Lemma attendees_id_Some cast l attendeeId :
  (∃ a, a ∈ l ∧ cast attendeeId = Some (attendee_id a)) ->
  ∃ i a, attendees_id cast l attendeeId = Some (i, a)
         ∧ l !! i = Some a ∧ cast attendeeId = Some (attendee_id a).
Proof.
  intros (a & Ha & Hid). unfold attendees_id. rewrite Hid. simpl.
  destruct (list_find (fun a0 => attendee_id a0 = attendee_id a) l)
    as [[i a']|] eqn:F.
  - apply list_find_Some in F as (Hi & Hp & _). exists i, a'.
    by rewrite Hp.
  - apply list_find_None in F. rewrite Forall_forall in F.
    by destruct (F a Ha).
Qed.

(** C6, amended: when the fetch of the event resolves, attendee_checkin
    answers 'Unauthorized' and leaves the event as it is unless the
    requester organises it; when the organiser names an attendee of the
    event and the save resolves, that attendee gets [checkInTime = now]
    and status 'attended', the event is saved and 'attendee_checked_in'
    goes to the room [event_<eventId>].  When the fetch or the save is
    rejected the answer is 'Check-in failed', and nothing is changed or
    broadcast. *)
Theorem attendee_checkin_organizer_only socket eventId attendeeId now w :
  let w' := state_after (on_attendee_checkin socket eventId attendeeId now) w in
  let log := trace (on_attendee_checkin socket eventId attendeeId now) w in
  let id := socket_id socket in
  ((lookupEvent w eventId = Ok None
    ∨ ∃ _id e, lookupEvent w eventId = Ok (Some (_id, e))
               ∧ organizer e ≠ socket_userId socket) ->
   log = [DbFind eventId; Emit id ToSelf (error "Unauthorized")] ∧ w' = w)
  ∧ (∀ _id e, lookupEvent w eventId = Ok (Some (_id, e)) ->
          organizer e = socket_userId socket ->
          (∃ a, a ∈ attendees e
                ∧ castObjectId w attendeeId = Some (attendee_id a)) ->
     (save_rejects w = false ->
      ∃ i a e',
        attendees e !! i = Some a
        ∧ castObjectId w attendeeId = Some (attendee_id a)
        ∧ attendees e' =
            <[i := mkAttendee (attendee_id a) (attendee_user a) attended
                     (Some now)]> (attendees e)
        ∧ events w' = <[_id := e']> (events w)
        ∧ log = [DbFind eventId; DbSave _id;
                 Emit id (ToRoom ("event_" +:+ eventId))
                   (attendee_checked_in eventId attendeeId now
                      (checkedIn (attendees e')))])
     ∧ (save_rejects w = true ->
        log = [DbFind eventId; Emit id ToSelf (error "Check-in failed")]
        ∧ w' = w))
  ∧ (∀ exn, lookupEvent w eventId = Thrown exn ->
       log = [DbFind eventId; Emit id ToSelf (error "Check-in failed")]
       ∧ w' = w).
Proof.
  cbv zeta. unfold on_attendee_checkin. run_handler. split; [|split].
  - intros [E|(_id & e & E & Ho)]; rewrite E; simpl; [done|].
    by rewrite bool_decide_eq_true_2.
  - intros _id e E Ho Ha. rewrite E. simpl.
    rewrite bool_decide_eq_false_2 by (intros Hn; by apply Hn).
    apply attendees_id_Some in Ha as (i & a & F & Hi & Hid).
    simpl. rewrite F. simpl. split; intros ->; simpl; [|done].
    exists i, a, (preSave false now (set_attendees <[i := checkIn now a]> e)).
    by repeat split.
  - intros exn E. by rewrite E.
Qed.

Lemma attendee_checkin_organizer_only_witness :
  ((lookupEvent Samples.hall Samples.e1 = Ok None
    ∨ ∃ _id e, lookupEvent Samples.hall Samples.e1 = Ok (Some (_id, e))
               ∧ organizer e ≠ "u2")
   ∧ state_after (on_attendee_checkin Samples.bob_socket Samples.e1 Samples.a1 9)
       Samples.hall
     = Samples.hall)
  ∧ (lookupEvent Samples.hall Samples.e1 = Ok (Some (Samples.e1, Samples.gala))
     ∧ organizer Samples.gala = "u1"
     ∧ (∃ a, a ∈ attendees Samples.gala
             ∧ castObjectId Samples.hall Samples.a1 = Some (attendee_id a))
     ∧ save_rejects Samples.hall = false
     ∧ trace (on_attendee_checkin Samples.alice_socket Samples.e1 Samples.a1 9)
         Samples.hall
       = [DbFind Samples.e1; DbSave Samples.e1;
          Emit "s1" (ToRoom "event_0000000000000000000000e1")
            (attendee_checked_in Samples.e1 Samples.a1 9 1)])
  ∧ (lookupEvent Samples.hall "e1" = Thrown "CastError"
     ∧ trace (on_attendee_checkin Samples.alice_socket "e1" Samples.a1 9)
         Samples.hall
       = [DbFind "e1"; Emit "s1" ToSelf (error "Check-in failed")])
  ∧ (save_rejects Samples.readonly = true
     ∧ state_after
         (on_attendee_checkin Samples.alice_socket Samples.e1 Samples.a1 9)
         Samples.readonly
       = Samples.readonly).
Proof.
  split; [|split; [|split]].
  - assert (U : lookupEvent Samples.hall Samples.e1 = Ok None
                ∨ ∃ _id e, lookupEvent Samples.hall Samples.e1
                             = Ok (Some (_id, e)) ∧ organizer e ≠ "u2").
    { right. exists Samples.e1, Samples.gala.
      split; [reflexivity | discriminate]. }
    split; [exact U|].
    by apply (attendee_checkin_organizer_only Samples.bob_socket Samples.e1
                Samples.a1 9 Samples.hall).
  - assert (A : ∃ a, a ∈ attendees Samples.gala
                     ∧ castObjectId Samples.hall Samples.a1
                       = Some (attendee_id a)).
    { eexists. split; [apply list_elem_of_here | reflexivity]. }
    do 4 (split; [done|]).
    destruct (attendee_checkin_organizer_only Samples.alice_socket Samples.e1
                Samples.a1 9 Samples.hall) as (_ & H & _).
    destruct (H Samples.e1 Samples.gala eq_refl eq_refl A) as [H1 _].
    destruct (H1 eq_refl) as (i & a & e' & Hi & Ha & He' & _ & ->).
    destruct i as [|[|i]]; [|done|done].
    injection Hi as <-. repeat f_equal. by rewrite He'.
  - split; [reflexivity|].
    destruct (attendee_checkin_organizer_only Samples.alice_socket "e1"
                Samples.a1 9 Samples.hall) as (_ & _ & H).
    by destruct (H "CastError" eq_refl) as [-> _].
  - split; [reflexivity|].
    assert (A : ∃ a, a ∈ attendees Samples.gala
                     ∧ castObjectId Samples.readonly Samples.a1
                       = Some (attendee_id a)).
    { eexists. split; [apply list_elem_of_here | reflexivity]. }
    destruct (attendee_checkin_organizer_only Samples.alice_socket Samples.e1
                Samples.a1 9 Samples.readonly) as (_ & H & _).
    destruct (H Samples.e1 Samples.gala eq_refl eq_refl A) as [_ H2].
    by destruct (H2 eq_refl) as [_ ->].
Defined.

(** C6 as stated fails where the fetch or the save is rejected.  No event
    has the id 'e1', which is no ObjectId, yet the answer to the check-in
    is not 'Unauthorized'; and while the database rejects writes, the
    check-in of an attendee by the organiser saves and broadcasts
    nothing. *)
Lemma checkin_rejected :
  ((∀ _id e, lookupEvent Samples.hall "e1" ≠ Ok (Some (_id, e)))
   ∧ (Emit "s1" ToSelf (error "Unauthorized")
        ∉ trace (on_attendee_checkin Samples.alice_socket "e1" Samples.a1 9)
            Samples.hall)
   ∧ trace (on_attendee_checkin Samples.alice_socket "e1" Samples.a1 9)
       Samples.hall
     = [DbFind "e1"; Emit "s1" ToSelf (error "Check-in failed")])
  ∧ (lookupEvent Samples.readonly Samples.e1
       = Ok (Some (Samples.e1, Samples.gala))
     ∧ organizer Samples.gala = "u1"
     ∧ attendees_id (castObjectId Samples.readonly) (attendees Samples.gala)
         Samples.a1
       = Some (0%nat, mkAttendee Samples.a1 "u2" registered None)
     ∧ trace (on_attendee_checkin Samples.alice_socket Samples.e1 Samples.a1 9)
         Samples.readonly
       = [DbFind Samples.e1; Emit "s1" ToSelf (error "Check-in failed")]
     ∧ state_after
         (on_attendee_checkin Samples.alice_socket Samples.e1 Samples.a1 9)
         Samples.readonly
       = Samples.readonly).
Proof.
  split.
  - split; [by vm_compute|]. split; [|reflexivity].
    assert (trace (on_attendee_checkin Samples.alice_socket "e1" Samples.a1 9)
              Samples.hall
            = [DbFind "e1"; Emit "s1" ToSelf (error "Check-in failed")])
      as -> by reflexivity.
    in_log.
  - by repeat split.
Qed.







Ltac run_connect :=
  unfold connect, authenticate, jwt_verify, onConnection,
    broadcastUserStatus, result_of, findUserById;
  run_handler.

Example handshakeToken_bearer :
  handshakeToken Samples.bearer = Some "tok-bob"
  ∧ handshakeToken (mkHandshake (Some "a") (Some "Bearer b")) = Some "a"
  ∧ handshakeToken (mkHandshake (Some EmptyString) (Some "b")) = Some "b".
Proof. by vm_compute. Qed.

Lemma handshakeToken_sources h token :
  handshakeToken h = Some token ∧ token ≠ EmptyString <->
  (auth_token h = Some token ∧ token ≠ EmptyString)
  ∨ (truthy (auth_token h) = false
     ∧ ∃ header, header_authorization h = Some header
                 ∧ replace "Bearer " EmptyString header = token
                 ∧ token ≠ EmptyString).
Proof.
  unfold handshakeToken, or_else.
  destruct (auth_token h) as [[|c t]|]; simpl.
  - destruct (header_authorization h) as [hd|]; simpl; split.
    + intros [[= <-] Hn]. right. split; [done|]. by exists hd.
    + intros [[[= <-] Hn]|[_ (hd' & [= <-] & <- & Hn)]]; done.
    + by intros [? _].
    + intros [[[= <-] Hn]|[_ (hd' & ? & _)]]; done.
  - split.
    + intros [[= <-] Hn]. by left.
    + intros [[[= <-] Hn]|[? _]]; done.
  - destruct (header_authorization h) as [hd|]; simpl; split.
    + intros [[= <-] Hn]. right. split; [done|]. by exists hd.
    + intros [[? _]|[_ (hd' & [= <-] & <- & Hn)]]; done.
    + by intros [? _].
    + intros [[? _]|[_ (hd' & ? & _)]]; done.
Qed.

(** C2: a connection attempt is accepted exactly when the handshake
    supplies a token (in [auth.token], or else in the Authorization
    header), the token verifies, and it names a stored user with status
    'active'; an accepted socket joins the room [user_<userId>]; any other
    attempt is refused with an authentication error and changes nothing. *)
Theorem connect_authenticated jwtVerify id h now w :
  let log := trace (connect jwtVerify id h now) w in
  let w' := state_after (connect jwtVerify id h now) w in
  let granted := ∃ userId user, authentic jwtVerify h w userId user in
  ((∃ socket, result_of (authenticate jwtVerify id h) w = Ok (next_ok socket))
   <-> granted)
  ∧ (∀ userId user, authentic jwtVerify h w userId user ->
       result_of (authenticate jwtVerify id h) w
         = Ok (next_ok (mkSocket id userId (userId, user)))
       ∧ Join id ("user_" +:+ userId) ∈ log
       ∧ (∀ room, Join id room ∈ log -> room = "user_" +:+ userId)
       ∧ is_open w' (mkSocket id userId (userId, user)))
  ∧ (¬ granted ->
       ∃ message, message ∈ authentication_errors
         ∧ result_of (authenticate jwtVerify id h) w = Ok (next_error message)
         ∧ log = [Refuse id message] ∧ w' = w)
  ∧ (∀ token, handshakeToken h = Some token ∧ token ≠ EmptyString <->
       (auth_token h = Some token ∧ token ≠ EmptyString)
       ∨ (truthy (auth_token h) = false
          ∧ ∃ header, header_authorization h = Some header
                      ∧ replace "Bearer " EmptyString header = token
                      ∧ token ≠ EmptyString)).
Proof.
  cbv zeta.
  assert (A : ∀ userId user, authentic jwtVerify h w userId user ->
            result_of (authenticate jwtVerify id h) w
              = Ok (next_ok (mkSocket id userId (userId, user)))
            ∧ Join id ("user_" +:+ userId)
                ∈ trace (connect jwtVerify id h now) w
            ∧ (∀ room, Join id room ∈ trace (connect jwtVerify id h now) w ->
                 room = "user_" +:+ userId)
            ∧ is_open (state_after (connect jwtVerify id h now) w)
                (mkSocket id userId (userId, user))).
  { intros userId user (token & decoded & T & Hn & V & J & F & U & S).
    destruct token as [|c t]; [done|].
    run_connect. rewrite T. simpl. rewrite V. simpl. rewrite F, J. simpl.
    rewrite U. simpl. rewrite bool_decide_eq_false_2 by (intros Hs; by apply Hs).
    simpl. split; [done|].
    unfold user_room.
    destruct (userSockets w !! userId) as [set|] eqn:Us; simpl.
    - split; [in_log|]. split; [intros room; in_log|].
      eexists. simpl. by rewrite lookup_insert_eq.
    - split; [in_log|]. split; [intros room; in_log|].
      eexists. simpl. by rewrite lookup_insert_eq. }
  assert (R : (∃ socket,
                 result_of (authenticate jwtVerify id h) w = Ok (next_ok socket))
              -> ∃ userId user, authentic jwtVerify h w userId user).
  { intros [socket Hs]. revert Hs. run_connect.
    destruct (handshakeToken h) as [[|c t]|] eqn:T; simpl; try done.
    destruct (jwtVerify (String c t)) as [[[userId|]]|] eqn:V; simpl;
      destruct (find_rejects w) eqn:F; simpl; try done.
    destruct (users w !! userId) as [user|] eqn:U; simpl; try done.
    case_bool_decide as S; simpl; try done.
    intros _. exists userId, user, (String c t), (mkJwtPayload (Some userId)).
    by repeat split. }
  split; [|split; [|split]].
  - split; [exact R|]. intros (userId & user & G).
    eexists. by apply A.
  - exact A.
  - intros D.
    assert (D' : ¬ ∃ socket,
               result_of (authenticate jwtVerify id h) w = Ok (next_ok socket)).
    { intros Hs. by apply D, R. }
    revert D'. run_connect.
    destruct (handshakeToken h) as [[|c t]|] eqn:T; simpl;
      try (intros _; eexists; split; [|done]; unfold authentication_errors; in_log).
    destruct (jwtVerify (String c t)) as [[[userId|]]|] eqn:V; simpl;
      destruct (find_rejects w) eqn:F; simpl;
      try (intros _; eexists; split; [|done]; unfold authentication_errors; in_log).
    destruct (users w !! userId) as [user|] eqn:U; simpl;
      try (intros _; eexists; split; [|done]; unfold authentication_errors; in_log).
    case_bool_decide as S; simpl;
      try (intros _; eexists; split; [|done]; unfold authentication_errors; in_log).
    intros D'. destruct D'. by eexists.
  - apply handshakeToken_sources.
Qed.

Lemma connect_authenticated_witness :
  authentic Samples.verify Samples.bearer Samples.hall "u2" Samples.bob
  ∧ Join "s2" "user_u2"
      ∈ trace (connect Samples.verify "s2" Samples.bearer 0) Samples.hall
  ∧ (¬ (∃ userId user,
          authentic Samples.verify Samples.anonymous Samples.hall userId user))
  ∧ state_after (connect Samples.verify "s2" Samples.anonymous 0) Samples.hall
    = Samples.hall.
Proof.
  assert (G : authentic Samples.verify Samples.bearer Samples.hall "u2"
                Samples.bob).
  { exists "tok-bob", (mkJwtPayload (Some "u2")). by repeat split. }
  assert (D : ¬ (∃ userId user,
              authentic Samples.verify Samples.anonymous Samples.hall userId user)).
  { intros (userId & user & token & decoded & T & _). discriminate T. }
  split; [exact G|]. split; [|split; [exact D|]].
  - destruct (connect_authenticated Samples.verify "s2" Samples.bearer 0
                Samples.hall) as (_ & H & _).
    by apply (H "u2" Samples.bob G).
  - destruct (connect_authenticated Samples.verify "s2" Samples.anonymous 0
                Samples.hall) as (_ & _ & H & _).
    by destruct (H D) as (message & _ & _ & _ & ->).
Defined.

(** *** Disconnection *)

Lemma forEach_leave socket now l w :
  let w' := state_after (forEach l (leaveRoomOnDisconnect socket now)) w in
  activeConnections w' = activeConnections w
  ∧ userSockets w' = userSockets w
  ∧ events w' = events w ∧ users w' = users w
  ∧ eventRooms w' = foldl (forget (socket_id socket)) (eventRooms w) l
  ∧ Forall is_user_left
      (trace (forEach l (leaveRoomOnDisconnect socket now)) w).
Proof.
  revert w. induction l as [|[k set] l IH]; intros w.
  - by repeat split.
  - specialize (IH (if decide (socket_id socket ∈ set)
                    then set_eventRooms <[k := set ∖ {[socket_id socket]}]> w
                    else w)).
    revert IH. simpl. unfold leaveRoomOnDisconnect, forget. run_handler.
    destruct (decide (socket_id socket ∈ set)) as [Hin|Hin]; simpl;
      [rewrite bool_decide_eq_true_2 by done
      |rewrite bool_decide_eq_false_2 by done]; simpl;
      destruct (forEach l _ _) as [[r w1] log1]; simpl;
      intros (? & ? & ? & ? & ? & ?); repeat split; try done.
    constructor; [|done]. by eexists _, _, _, _, _.
Qed.

Lemma foldl_forget_lookup id (l : list (ObjectId * gset SocketId)) rooms k :
  NoDup l.*1 ->
  (∀ k' set, (k', set) ∈ l -> rooms !! k' = Some set) ->
  foldl (forget id) rooms l !! k =
    if decide (k ∈ l.*1) then (fun set => set ∖ {[id]}) <$> rooms !! k
    else rooms !! k.
Proof.
  revert rooms. induction l as [|[k0 set0] l IH]; intros rooms Hnd Hl.
  - destruct (decide (k ∈ [].*1)) as [Hin|_]; [by inversion Hin | done].
  - rewrite fmap_cons in *. cbn [foldl fst].
    apply NoDup_cons in Hnd as [Hk0 Hnd].
    assert (H0 : rooms !! k0 = Some set0) by apply Hl, list_elem_of_here.
    assert (Hk : ∀ k' set, (k', set) ∈ l -> k' ≠ k0).
    { intros k' set Hin ->. apply Hk0. apply list_elem_of_fmap.
      by exists (k0, set). }
    assert (Hl' : ∀ k' set, (k', set) ∈ l ->
              forget id rooms (k0, set0) !! k' = Some set).
    { intros k' set Hin. unfold forget. cbn [fst snd].
      destruct (decide (id ∈ set0)).
      - rewrite lookup_insert_ne by (intros ->; by eapply Hk).
        by apply Hl, list_elem_of_further.
      - by apply Hl, list_elem_of_further. }
    rewrite (IH _ Hnd Hl'). unfold forget. cbn [fst snd].
    destruct (decide (k = k0)) as [->|Hne].
    + destruct (decide (k0 ∈ l.*1)) as [|_]; [done|].
      destruct (decide (k0 ∈ k0 :: l.*1)) as [_|Hn];
        [|destruct Hn; apply list_elem_of_here].
      rewrite H0. simpl.
      destruct (decide (id ∈ set0)) as [Hin|Hin].
      * by rewrite lookup_insert_eq.
      * rewrite H0. f_equal. apply set_eq. intros x.
        rewrite elem_of_difference, elem_of_singleton.
        split; [intros Hx; split; [done | by intros ->] | by intros [Hx _]].
    + assert (forget_ne :
        (if decide (id ∈ set0) then <[k0 := set0 ∖ {[id]}]> rooms else rooms)
          !! k = rooms !! k).
      { destruct (decide (id ∈ set0)); [by rewrite lookup_insert_ne | done]. }
      rewrite forget_ne.
      destruct (decide (k ∈ l.*1)) as [Hin|Hin];
        destruct (decide (k ∈ k0 :: l.*1)) as [Hin'|Hin']; try done.
      * destruct Hin'. by apply list_elem_of_further.
      * apply elem_of_cons in Hin' as [?|?]; done.
Qed.

Lemma foldl_forget_map id (rooms : gmap ObjectId (gset SocketId)) :
  foldl (forget id) rooms (map_to_list rooms)
  = (fun set => set ∖ {[id]}) <$> rooms.
Proof.
  apply map_eq. intros k.
  rewrite foldl_forget_lookup.
  - rewrite lookup_fmap. destruct (decide (k ∈ (map_to_list rooms).*1)) as [|Hk];
      [done|].
    destruct (rooms !! k) as [set|] eqn:E; [|done].
    destruct Hk. apply list_elem_of_fmap. exists (k, set).
    split; [done|]. by apply elem_of_map_to_list.
  - apply NoDup_fst_map_to_list.
  - intros k' set. apply elem_of_map_to_list.
Qed.

Lemma offline_not_left socket now l :
  Forall is_user_left l -> offline socket now ∉ l.
Proof.
  rewrite Forall_forall. intros Hl Hin.
  by destruct (Hl _ Hin) as (? & ? & ? & ? & ? & ?).
Qed.

(** The state and the log after the disconnect handler. *)
Lemma onDisconnect_effect socket reason now w :
  let w' := state_after (onDisconnect socket reason now) w in
  let log := trace (onDisconnect socket reason now) w in
  let id := socket_id socket in
  let userId := socket_userId socket in
  activeConnections w' = delete id (activeConnections w)
  ∧ eventRooms w' = (fun set => set ∖ {[id]}) <$> eventRooms w
  ∧ match userSockets w !! userId with
    | Some set =>
        if decide (set ∖ {[id]} = ∅)
        then userSockets w' = delete userId (userSockets w)
             ∧ offline socket now ∈ log
        else userSockets w' = <[userId := set ∖ {[id]}]> (userSockets w)
             ∧ offline socket now ∉ log
    | None => userSockets w' = userSockets w ∧ offline socket now ∉ log
    end.
Proof.
  cbv zeta. unfold onDisconnect, broadcastUserStatus. run_handler.
  destruct (userSockets w !! socket_userId socket) as [set|] eqn:Us; simpl.
  - destruct (decide (set ∖ {[socket_id socket]} = ∅)) as [He|He].
    + rewrite bool_decide_eq_true_2 by (by rewrite He). simpl.
      match goal with |- context [forEach ?l ?b ?w0] =>
        pose proof (forEach_leave socket now l w0) as F;
        destruct (forEach l b w0) as [[r w1] log1] eqn:Fe end.
      unfold state_after, trace, run in F. rewrite Fe in F. simpl in F.
      destruct F as (Fa & Fu & _ & _ & Fr & Fl). simpl.
      rewrite Fa, Fu, Fr. simpl. rewrite foldl_forget_map.
      repeat split; try done.
      * by rewrite delete_insert_eq.
      * apply list_elem_of_here.
    + rewrite bool_decide_eq_false_2; simpl.
      2:{ intros Hs. apply He. by apply size_empty_inv, leibniz_equiv in Hs. }
      match goal with |- context [forEach ?l ?b ?w0] =>
        pose proof (forEach_leave socket now l w0) as F;
        destruct (forEach l b w0) as [[r w1] log1] eqn:Fe end.
      unfold state_after, trace, run in F. rewrite Fe in F. simpl in F.
      destruct F as (Fa & Fu & _ & _ & Fr & Fl). simpl.
      rewrite Fa, Fu, Fr. simpl. rewrite foldl_forget_map.
      repeat split; try done. by apply offline_not_left.
  - match goal with |- context [forEach ?l ?b ?w0] =>
      pose proof (forEach_leave socket now l w0) as F;
      destruct (forEach l b w0) as [[r w1] log1] eqn:Fe end.
    unfold state_after, trace, run in F. rewrite Fe in F. simpl in F.
    destruct F as (Fa & Fu & _ & _ & Fr & Fl). simpl.
    rewrite Fa, Fu, Fr. simpl. rewrite foldl_forget_map.
    repeat split; try done. by apply offline_not_left.
Qed.

Lemma handle_keeps_connections socket ev now w :
  activeConnections (state_after (handle socket ev now) w) = activeConnections w
  ∧ userSockets (state_after (handle socket ev now) w) = userSockets w.
Proof.
  destruct ev; simpl;
    unfold on_join_event, on_leave_event, on_event_update,
      on_send_event_message, on_typing_start, on_typing_stop,
      on_send_notification, on_mark_notification_read,
      on_request_event_stats, on_attendee_checkin;
    run_handler; repeat case_match; by simplify_eq/=.
Qed.

Lemma onConnection_effect socket now w :
  let w' := state_after (onConnection socket now) w in
  activeConnections w' =
    <[socket_id socket :=
        mkConnection (socket_userId socket) (socket_user socket) now]>
      (activeConnections w)
  ∧ userSockets w' =
      <[socket_userId socket :=
          default ∅ (userSockets w !! socket_userId socket)
            ∪ {[socket_id socket]}]> (userSockets w).
Proof.
  cbv zeta. unfold onConnection, broadcastUserStatus. run_handler.
  destruct (userSockets w !! socket_userId socket) as [set|] eqn:Us; simpl;
    (split; [done|]); apply map_eq; intros u;
    destruct (decide (u = socket_userId socket)) as [->|Hne].
  - by rewrite lookup_alter_eq, lookup_insert_eq, Us.
  - by rewrite lookup_alter_ne, lookup_insert_ne.
  - by rewrite lookup_alter_eq, !lookup_insert_eq.
  - by rewrite lookup_alter_ne, !lookup_insert_ne.
Qed.

Lemma connect_effect jwtVerify id h now w :
  state_after (connect jwtVerify id h now) w = w
  ∨ ∃ socket, socket_id socket = id
      ∧ state_after (connect jwtVerify id h now) w
        = state_after (onConnection socket now) w.
Proof.
  run_connect.
  destruct (handshakeToken h) as [[|c t]|]; simpl; auto.
  destruct (jwtVerify (String c t)) as [[[userId|]]|]; simpl;
    destruct (find_rejects w); simpl; auto.
  destruct (users w !! userId) as [user|]; simpl; auto.
  case_bool_decide; simpl; auto.
  right. exists (mkSocket id userId (userId, user)). split; [done|]. simpl.
  by destruct (userSockets w !! userId).
Qed.

Lemma consistent_initial w : initial w -> consistent w.
Proof.
  intros (Ha & _ & Hu). split.
  - intros userId set. by rewrite Hu, lookup_empty.
  - intros id c. by rewrite Ha, lookup_empty.
Qed.

Lemma consistent_onConnection socket now w :
  consistent w ->
  activeConnections w !! socket_id socket = None ->
  consistent (state_after (onConnection socket now) w).
Proof.
  intros [I1 I2] Hfresh.
  destruct (onConnection_effect socket now w) as [Ha Hu].
  set (id := socket_id socket) in *. set (userId := socket_userId socket) in *.
  assert (Hold : ∀ u set s, userSockets w !! u = Some set -> s ∈ set -> s ≠ id).
  { intros u set s Hs Hin ->. destruct (I1 u set Hs) as [_ Hc].
    destruct (Hc id Hin) as (c & Hc' & _). congruence. }
  split.
  - intros u set. rewrite Hu, Ha.
    destruct (decide (u = userId)) as [->|Hne].
    + rewrite lookup_insert_eq. intros [= <-]. split.
      * intros He. assert (id ∈ (∅ : gset SocketId)); [|set_solver].
        rewrite <- He. apply elem_of_union_r. by apply elem_of_singleton.
      * intros s [Hs| ->%elem_of_singleton]%elem_of_union.
        -- destruct (userSockets w !! userId) as [set0|] eqn:Us; simpl in Hs;
             [|by apply not_elem_of_empty in Hs].
           rewrite lookup_insert_ne by (symmetry; by eapply Hold).
           by apply (I1 userId set0).
        -- rewrite lookup_insert_eq. by eexists.
    + rewrite lookup_insert_ne by done. intros Hs.
      destruct (I1 u set Hs) as [Hn Hc]. split; [done|].
      intros s Hin. rewrite lookup_insert_ne by (symmetry; by eapply Hold).
      by apply Hc.
  - intros s c. rewrite Hu, Ha.
    destruct (decide (s = id)) as [->|Hne].
    + rewrite lookup_insert_eq. intros [= <-]. simpl.
      rewrite lookup_insert_eq. eexists. split; [done|].
      apply elem_of_union_r. by apply elem_of_singleton.
    + rewrite lookup_insert_ne by done. intros Hc.
      destruct (I2 s c Hc) as (set & Hs & Hin).
      destruct (decide (conn_userId c = userId)) as [Hu'|Hu'].
      * rewrite Hu' in *. rewrite lookup_insert_eq, Hs. simpl.
        eexists. split; [done|]. by apply elem_of_union_l.
      * rewrite lookup_insert_ne by done. by exists set.
Qed.

Lemma consistent_onDisconnect socket reason now w :
  consistent w -> is_open w socket ->
  consistent (state_after (onDisconnect socket reason now) w).
Proof.
  intros [I1 I2] (c0 & Hc0 & Hu0).
  destruct (onDisconnect_effect socket reason now w) as (Ha & _ & Hu).
  set (id := socket_id socket) in *. set (userId := socket_userId socket) in *.
  destruct (I2 id c0 Hc0) as (set0 & Hs0 & Hin0). rewrite Hu0 in Hs0.
  rewrite Hs0 in Hu.
  assert (Hother : ∀ u set s, u ≠ userId ->
            userSockets w !! u = Some set -> s ∈ set -> s ≠ id).
  { intros u set s Hne Hs Hin ->. destruct (I1 u set Hs) as [_ Hc].
    destruct (Hc id Hin) as (c & Hc' & Hcu). congruence. }
  destruct (decide (set0 ∖ {[id]} = ∅)) as [He|He]; destruct Hu as [Hu _].
  - split.
    + intros u set. rewrite Hu, Ha.
      destruct (decide (u = userId)) as [->|Hne];
        [by rewrite lookup_delete_eq|].
      rewrite lookup_delete_ne by done. intros Hs.
      destruct (I1 u set Hs) as [Hn Hc]. split; [done|].
      intros s Hin. rewrite lookup_delete_ne by (symmetry; by eapply Hother).
      by apply Hc.
    + intros s c. rewrite Hu, Ha.
      destruct (decide (s = id)) as [->|Hne]; [by rewrite lookup_delete_eq|].
      rewrite lookup_delete_ne by done. intros Hc.
      destruct (I2 s c Hc) as (set & Hs & Hin).
      destruct (decide (conn_userId c = userId)) as [Hu'|Hu'].
      * rewrite Hu' in Hs. assert (set = set0) as -> by congruence.
        assert (s ∈ set0 ∖ {[id]}) as Hd.
        { apply elem_of_difference. split; [done|].
          by rewrite elem_of_singleton. }
        rewrite He in Hd. by apply not_elem_of_empty in Hd.
      * rewrite lookup_delete_ne by done. by exists set.
  - split.
    + intros u set. rewrite Hu, Ha.
      destruct (decide (u = userId)) as [->|Hne].
      * rewrite lookup_insert_eq. intros [= <-]. split; [done|].
        intros s [Hin Hs]%elem_of_difference.
        rewrite elem_of_singleton in Hs.
        rewrite lookup_delete_ne by done. by apply (I1 userId set0).
      * rewrite lookup_insert_ne by done. intros Hs.
        destruct (I1 u set Hs) as [Hn Hc]. split; [done|].
        intros s Hin. rewrite lookup_delete_ne by (symmetry; by eapply Hother).
        by apply Hc.
    + intros s c. rewrite Hu, Ha.
      destruct (decide (s = id)) as [->|Hne]; [by rewrite lookup_delete_eq|].
      rewrite lookup_delete_ne by done. intros Hc.
      destruct (I2 s c Hc) as (set & Hs & Hin).
      destruct (decide (conn_userId c = userId)) as [Hu'|Hu'].
      * rewrite Hu' in *. rewrite lookup_insert_eq.
        assert (set = set0) as -> by congruence.
        eexists. split; [done|]. apply elem_of_difference.
        split; [done|]. by rewrite elem_of_singleton.
      * rewrite lookup_insert_ne by done. by exists set.
Qed.

Lemma consistent_step jwtVerify w w' :
  step jwtVerify w w' -> consistent w -> consistent w'.
Proof.
  intros Hstep I. destruct Hstep as [w id h now Hf|w socket ev now Ho
                                    |w socket reason now Ho|w events' users' find' save'].
  - destruct (connect_effect jwtVerify id h now w) as [->|(socket & <- & ->)];
      [done|]. by apply consistent_onConnection.
  - destruct (handle_keeps_connections socket ev now w) as [Ha Hu].
    unfold consistent. by rewrite Ha, Hu.
  - by apply consistent_onDisconnect.
  - done.
Qed.

Lemma reachable_consistent jwtVerify w :
  reachable jwtVerify w -> consistent w.
Proof.
  intros (w0 & H0 & Hr). apply consistent_initial in H0.
  induction Hr as [|w1 w2 w3 Hs _ IH]; [done|].
  apply IH. by eapply consistent_step.
Qed.

(** C10: in every state the server can reach, no user is listed in
    [userSockets] with an empty set; and after the disconnect handler of an
    open connection has run, its socket id is in none of
    [activeConnections], the sets of [userSockets] and the sets of
    [eventRooms].  The entry of the user is deleted, and 'offline'
    broadcast, exactly when the set of the user becomes empty. *)
Theorem disconnect_forgets jwtVerify w :
  reachable jwtVerify w ->
  (∀ userId set, userSockets w !! userId = Some set -> set ≠ ∅)
  ∧ ∀ socket reason now,
      is_open w socket ->
      let w' := state_after (onDisconnect socket reason now) w in
      let log := trace (onDisconnect socket reason now) w in
      let id := socket_id socket in
      let userId := socket_userId socket in
      activeConnections w' !! id = None
      ∧ (∀ u set, userSockets w' !! u = Some set -> set ≠ ∅ ∧ id ∉ set)
      ∧ (∀ eventId set, eventRooms w' !! eventId = Some set -> id ∉ set)
      ∧ ∃ set, userSockets w !! userId = Some set ∧ id ∈ set
          ∧ (if decide (set ∖ {[id]} = ∅)
             then userSockets w' !! userId = None
                  ∧ offline socket now ∈ log
             else userSockets w' !! userId = Some (set ∖ {[id]})
                  ∧ offline socket now ∉ log).
Proof.
  intros Hr. pose proof (reachable_consistent _ _ Hr) as I.
  split; [intros userId set Hs; by apply (proj1 I userId set)|].
  intros socket reason now Ho. cbv zeta.
  pose proof (consistent_onDisconnect socket reason now w I Ho) as [I1' I2'].
  destruct (onDisconnect_effect socket reason now w) as (Ha & He & Hu).
  assert (Hgone : activeConnections
                    (state_after (onDisconnect socket reason now) w)
                    !! socket_id socket = None).
  { by rewrite Ha, lookup_delete_eq. }
  split; [done|]. split; [|split].
  - intros u set Hs. destruct (I1' u set Hs) as [Hn Hc]. split; [done|].
    intros Hin. destruct (Hc _ Hin) as (c & Hc' & _). congruence.
  - intros eventId set. rewrite He, lookup_fmap.
    destruct (eventRooms w !! eventId) as [set0|]; simpl; [|done].
    intros [= <-]. rewrite elem_of_difference, elem_of_singleton. tauto.
  - destruct Ho as (c0 & Hc0 & Hu0). destruct I as [_ I2].
    destruct (I2 _ _ Hc0) as (set0 & Hs0 & Hin0). rewrite Hu0 in Hs0.
    rewrite Hs0 in Hu. exists set0. split; [done|]. split; [done|].
    destruct (decide (set0 ∖ {[socket_id socket]} = ∅));
      destruct Hu as [-> Hl]; split; try done.
    + by rewrite lookup_delete_eq.
    + by rewrite lookup_insert_eq.
Qed.

Lemma disconnect_forgets_witness :
  let w := state_after (connect Samples.verify "s2" Samples.bearer 0)
             Samples.hall in
  reachable Samples.verify w
  ∧ is_open w Samples.bob_socket
  ∧ activeConnections
      (state_after (onDisconnect Samples.bob_socket "transport close" 1) w)
      !! "s2" = None.
Proof.
  cbv zeta.
  assert (R : reachable Samples.verify
                (state_after (connect Samples.verify "s2" Samples.bearer 0)
                   Samples.hall)).
  { exists Samples.hall. split; [done|].
    apply rtc_once. by apply step_connect. }
  assert (O : is_open
                (state_after (connect Samples.verify "s2" Samples.bearer 0)
                   Samples.hall) Samples.bob_socket).
  { eexists. split; reflexivity. }
  split; [exact R|]. split; [exact O|].
  destruct (disconnect_forgets Samples.verify _ R) as [_ H].
  by destruct (H Samples.bob_socket "transport close" 1 O) as [H1 _].
Defined.

End SocketProperties.

(** ** The client authentication service *)
Section AuthProperties.
Import AuthService.

Lemma handleLogout_clears production s :
  let s' := handleLogout production s in
  getStoredToken production s' = None
  ∧ currentUser s' = None
  ∧ isAuthenticated s' = false
  ∧ navigations s' = navigations s ++ ["/login"].
Proof.
  cbv zeta.
  unfold handleLogout, clearTokenRefreshTimer, clearAuthState,
    removeStoredToken, getStoredToken.
  destruct production; simpl; by destruct (tokenRefreshTimer s).
Qed.

(** C3: when a call of the service fails with a server-side error of
    status 401, the stored token is removed, the current user becomes
    null, the authenticated flag becomes false and the router is sent to
    /login. *)
Theorem unauthorized_forces_logout production call error s :
  clientSide error = false ->
  http_status error = 401 ->
  let s' := onError production call error s in
  (handleError production error s).1 = handleLogout production s
  ∧ getStoredToken production s' = None
  ∧ currentUser s' = None
  ∧ isAuthenticated s' = false
  ∧ navigations s' = navigations s ++ ["/login"].
Proof.
  intros Hc Hs. cbv zeta.
  assert (He : (handleError production error s).1 = handleLogout production s).
  { unfold handleError. by rewrite Hc, Hs. }
  split; [done|].
  assert (Ho : onError production call error s = handleLogout production s).
  { destruct call; simpl; done. }
  rewrite Ho. apply handleLogout_clears.
Qed.

Lemma unauthorized_forces_logout_witness :
  clientSide Samples.unauthorized = false
  ∧ http_status Samples.unauthorized = 401
  ∧ navigations (onError false getUserProfile Samples.unauthorized Samples.session)
    = navigations Samples.session ++ ["/login"].
Proof.
  split; [done|]. split; [done|].
  by apply (unauthorized_forces_logout false getUserProfile Samples.unauthorized
              Samples.session).
Defined.

(** *** The refresh timer *)

Lemma held_same_timers s s' :
  timers s' = timers s -> tokenRefreshTimer s' = tokenRefreshTimer s ->
  nextTimer s' = nextTimer s -> held s -> held s'.
Proof. unfold held. by intros -> -> ->. Qed.

Lemma held_size s : held s -> (size (timers s) <= 1)%nat.
Proof.
  intros [H _]. destruct (tokenRefreshTimer s) as [t|] eqn:T.
  - assert (timers s ⊆ {[t := default 0 (timers s !! t)]}) as Hsub.
    { apply map_subseteq_spec. intros t' due Ht'.
      pose proof (H _ _ Ht') as [= <-].
      by rewrite Ht', lookup_singleton_eq. }
    apply map_subseteq_size in Hsub. rewrite map_size_singleton in Hsub. exact Hsub.
  - assert (timers s = ∅) as ->; [|rewrite map_size_empty; lia].
    apply map_empty. intros t. destruct (timers s !! t) eqn:E; [|done].
    by apply H in E.
Qed.

Lemma clearTokenRefreshTimer_held s :
  held s ->
  timers (clearTokenRefreshTimer s) = ∅
  ∧ tokenRefreshTimer (clearTokenRefreshTimer s) = None
  ∧ nextTimer (clearTokenRefreshTimer s) = nextTimer s.
Proof.
  intros [H _]. unfold clearTokenRefreshTimer.
  destruct (tokenRefreshTimer s) as [t|] eqn:T; simpl.
  - repeat split. apply map_empty. intros t'.
    destruct (decide (t' = t)) as [->|Hne]; [by rewrite lookup_delete_eq|].
    rewrite lookup_delete_ne by done.
    destruct (timers s !! t') eqn:E; [|done]. apply H in E. congruence.
  - repeat split; [|done]. apply map_empty. intros t.
    destruct (timers s !! t) eqn:E; [|done]. apply H in E. congruence.
Qed.

Lemma held_clearTokenRefreshTimer s : held s -> held (clearTokenRefreshTimer s).
Proof.
  intros Hs. destruct (clearTokenRefreshTimer_held s Hs) as (Ht & Hr & _).
  split; [by rewrite Ht | by rewrite Hr].
Qed.

(** What [scheduleTokenRefresh] does in a state where the invariant
    holds. *)
Lemma scheduleTokenRefresh_effect jwtDecode token now s :
  held s ->
  let s' := scheduleTokenRefresh jwtDecode token now s in
  match jwtDecode token ≫= exp with
  | Some e =>
      if decide (now < e * 1000 - REFRESH_THRESHOLD)
      then ∃ t, timers s'
                = {[t := now + setIntervalDelay
                                 (e * 1000 - REFRESH_THRESHOLD - now)]}
                ∧ tokenRefreshTimer s' = Some t
                ∧ timers s !! t = None
                ∧ nextTimer s' = S t
      else s' = s
  | None => s' = s
  end.
Proof.
  intros Hs. cbv zeta. unfold scheduleTokenRefresh.
  destruct (jwtDecode token) as [[[e|]]|]; simpl; try done.
  destruct (decide (now < e * 1000 - REFRESH_THRESHOLD)) as [Hlt|Hge].
  - assert ((0 <? e * 1000 - REFRESH_THRESHOLD - now) = true) as ->
      by (apply Z.ltb_lt; lia).
    destruct (clearTokenRefreshTimer_held s Hs) as (Ht & Hr & Hn).
    exists (nextTimer s). simpl. rewrite Ht, Hn.
    split; [by rewrite insert_empty|]. repeat split.
    destruct (timers s !! nextTimer s) eqn:E; [|done].
    destruct Hs as [H1 H2]. apply H1, H2 in E. lia.
  - assert ((0 <? e * 1000 - REFRESH_THRESHOLD - now) = false) as ->
      by (apply Z.ltb_ge; lia).
    done.
Qed.

(** A delay that the platform keeps. *)
Lemma setIntervalDelay_kept delay :
  0 < delay <= TIMEOUT_MAX -> setIntervalDelay delay = delay.
Proof.
  intros [H0 H1]. unfold setIntervalDelay.
  assert ((1 <=? delay) = true) as -> by (apply Z.leb_le; lia).
  by assert ((delay <=? TIMEOUT_MAX) = true) as -> by (by apply Z.leb_le).
Qed.

(** A timer does not fire before it is set, nor later than asked. *)
Lemma setIntervalDelay_bounds delay :
  0 < delay -> 0 < setIntervalDelay delay <= delay.
Proof.
  intros H0. unfold setIntervalDelay.
  destruct (1 <=? delay) eqn:L; simpl; [|lia].
  destruct (delay <=? TIMEOUT_MAX); lia.
Qed.

Lemma held_scheduleTokenRefresh jwtDecode token now s :
  held s -> held (scheduleTokenRefresh jwtDecode token now s).
Proof.
  intros Hs. pose proof (scheduleTokenRefresh_effect jwtDecode token now s Hs) as E.
  cbv zeta in E.
  destruct (jwtDecode token ≫= exp) as [e|]; [|by rewrite E].
  destruct (decide (now < e * 1000 - REFRESH_THRESHOLD)); [|by rewrite E].
  destruct E as (t & Ht & Hr & _ & Hn). split.
  - intros t' due. rewrite Ht, Hr.
    intros [-> _]%lookup_singleton_Some. done.
  - intros t'. rewrite Hr, Hn. intros [= <-]. lia.
Qed.

Lemma held_clearAuthState production s :
  held s -> held (clearAuthState production s).
Proof.
  apply held_same_timers;
    unfold clearAuthState, removeStoredToken; by destruct production.
Qed.

Lemma held_handleLogout production s :
  held s -> held (handleLogout production s).
Proof.
  intros Hs. unfold handleLogout.
  eapply (held_same_timers (clearTokenRefreshTimer (clearAuthState production s)));
    try done.
  by apply held_clearTokenRefreshTimer, held_clearAuthState.
Qed.

Lemma held_handleError production error s :
  held s -> held (handleError production error s).1.
Proof.
  intros Hs. unfold handleError.
  destruct (clientSide error); [done|].
  destruct (http_status error =? 401); [by apply held_handleLogout|].
  by destruct (serverMessage error) as [[|c m]|].
Qed.

Lemma held_onError production c error s :
  held s -> held (onError production c error s).
Proof.
  intros Hs.
  destruct c; simpl; by (apply held_handleLogout || apply held_handleError).
Qed.

Lemma held_storeToken production token s :
  held s -> held (storeToken production token s).
Proof.
  apply held_same_timers; unfold storeToken; by destruct production.
Qed.

Lemma held_onResponse production jwtDecode c response now s :
  held s -> held (onResponse production jwtDecode c response now s).
Proof.
  intros Hs. destruct c; simpl; try done.
  1,2,6: destruct (carriesToken response); [|done];
    unfold handleAuthSuccess; apply held_scheduleTokenRefresh;
    eapply (held_same_timers (storeToken production _ s)); try done;
    by apply held_storeToken.
  - by apply held_handleLogout.
  - by destruct (success response).
  - destruct (success response); [|done]. by destruct (currentUser s).
  - destruct (carriesToken response); [|done].
    by apply held_scheduleTokenRefresh, held_storeToken.
Qed.

Lemma held_initializeAuth production jwtDecode now cookie localStorage :
  held (initializeAuth production jwtDecode now (fresh cookie localStorage)).
Proof.
  assert (held (fresh cookie localStorage)) as Hf.
  { split; [intros t due; simpl; by rewrite lookup_empty | done]. }
  unfold initializeAuth.
  destruct (getStoredToken production _) as [[|c token]|];
    try by apply held_clearAuthState.
  destruct (isTokenValid jwtDecode _ now);
    [|by apply held_clearAuthState].
  by apply held_scheduleTokenRefresh.
Qed.

Lemma held_step production jwtDecode s s' :
  step production jwtDecode s s' -> held s -> held s'.
Proof.
  intros Hstep Hs.
  destruct Hstep as [s c response now|s c error|s error|s t due Ht].
  - by apply held_onResponse.
  - by apply held_onError.
  - by apply held_clearAuthState, held_onError.
  - destruct Hs as [H1 H2]. split; [|done].
    intros t' due'. simpl.
    destruct (decide (t' = t)) as [->|Hne]; [by rewrite lookup_delete_eq|].
    rewrite lookup_delete_ne by done. apply H1.
Qed.

Lemma reachable_held production jwtDecode s :
  reachable production jwtDecode s -> held s.
Proof.
  intros (cookie & localStorage & now & Hr).
  pose proof (held_initializeAuth production jwtDecode now cookie localStorage)
    as H0.
  induction Hr as [|s1 s2 s3 Hs _ IH]; [done|].
  apply IH. by eapply held_step.
Qed.

(** C4, amended: in every state the service can reach at most one refresh
    timer is pending.  [scheduleTokenRefresh] leaves the state as it is
    unless the instant [REFRESH_THRESHOLD] (5 minutes) before the expiry of
    the decoded token lies in the future; then the timers that were
    pending are gone and the only pending timer is a new one, which fires
    at that instant when that instant is at most [TIMEOUT_MAX]
    milliseconds away. *)
Theorem single_refresh_timer production jwtDecode s :
  reachable production jwtDecode s ->
  (size (timers s) <= 1)%nat
  ∧ REFRESH_THRESHOLD = 5 * 60 * 1000
  ∧ ∀ token now,
      let s' := scheduleTokenRefresh jwtDecode token now s in
      (size (timers s') <= 1)%nat
      ∧ match jwtDecode token ≫= exp with
        | Some e =>
            if decide (now < e * 1000 - REFRESH_THRESHOLD)
            then ∃ t due, timers s' = {[t := due]}
                      ∧ tokenRefreshTimer s' = Some t
                      ∧ timers s !! t = None
                      ∧ (e * 1000 - REFRESH_THRESHOLD - now <= TIMEOUT_MAX ->
                         due = e * 1000 - REFRESH_THRESHOLD)
            else s' = s
        | None => s' = s
        end.
Proof.
  intros Hr. pose proof (reachable_held _ _ _ Hr) as Hs.
  split; [by apply held_size|]. split; [done|].
  intros token now. cbv zeta. split.
  - by apply held_size, held_scheduleTokenRefresh.
  - pose proof (scheduleTokenRefresh_effect jwtDecode token now s Hs) as E.
    cbv zeta in E.
    destruct (jwtDecode token ≫= exp) as [e|]; [|done].
    destruct (decide (now < e * 1000 - REFRESH_THRESHOLD)); [|done].
    destruct E as (t & ? & ? & ? & _). eexists t, _.
    do 3 (split; [done|]). intros Hb.
    rewrite setIntervalDelay_kept by lia. lia.
Qed.

Lemma single_refresh_timer_witness :
  reachable false Samples.decode Samples.session
  ∧ (size (timers Samples.session) <= 1)%nat
  ∧ 1000000 < 2000 * 1000 - REFRESH_THRESHOLD
  ∧ 2000 * 1000 - REFRESH_THRESHOLD - 1000000 <= TIMEOUT_MAX
  ∧ ∃ t, timers (scheduleTokenRefresh Samples.decode "jwt" 1000000
                   Samples.session)
         = {[t := 1700000]}.
Proof.
  assert (R : reachable false Samples.decode Samples.session).
  { exists None, (Some "jwt"), 1000000. apply rtc_refl. }
  assert (B : 2000 * 1000 - REFRESH_THRESHOLD - 1000000 <= TIMEOUT_MAX).
  { by vm_compute. }
  split; [exact R|].
  destruct (single_refresh_timer false Samples.decode Samples.session R)
    as (H1 & _ & H2).
  split; [exact H1|]. split; [done|]. split; [exact B|].
  destruct (H2 "jwt" 1000000) as [_ H3].
  change (Samples.decode "jwt" ≫= exp) with (Some 2000) in H3.
  destruct (decide (1000000 < 2000 * 1000 - REFRESH_THRESHOLD)) as [_|N];
    [|by destruct N].
  destruct H3 as (t & due & Ht & _ & _ & Hd). exists t.
  by rewrite Ht, (Hd B).
Defined.

(** C4 as stated fails for a token whose refresh instant is more than
    [TIMEOUT_MAX] milliseconds away.  A client starts with a stored token
    that expires in 30 days: the refresh is due 5 minutes before that, and
    the one timer that is pending fires a millisecond after the start. *)
Lemma refresh_timer_overflow :
  let now := 1000000 in
  let expiry := (1000 + 30 * 86400) * 1000 in
  let s := initializeAuth false Samples.decode now
             (fresh None (Some "jwt-month")) in
  reachable false Samples.decode s
  ∧ jwtDecode_exp Samples.decode "jwt-month" = Some (1000 + 30 * 86400)
  ∧ now < expiry - REFRESH_THRESHOLD
  ∧ TIMEOUT_MAX < expiry - REFRESH_THRESHOLD - now
  ∧ timers s = {[0%nat := now + 1]}
  ∧ ¬ ∃ t, timers s !! t = Some (expiry - REFRESH_THRESHOLD).
Proof.
  cbv zeta. split.
  { exists None, (Some "jwt-month"), 1000000. apply rtc_refl. }
  split; [reflexivity|]. split; [by vm_compute|]. split; [by vm_compute|].
  assert (T : timers (initializeAuth false Samples.decode 1000000
                        (fresh None (Some "jwt-month")))
              = {[0%nat := 1000000 + 1]}) by reflexivity.
  split; [exact T|]. rewrite T. intros (t & Ht).
  apply lookup_singleton_Some in Ht as [_ Ht]. by vm_compute in Ht.
Qed.

End AuthProperties.

(** * Further properties *)

(** ** The Event model: virtuals and the pre-save hook *)
Section EventFurther.
Import UserModel EventModel.

#[local] Existing Instance byStartDate_total.
#[local] Existing Instance byStartDate_trans.

(** X1: [daysUntilEvent] is the number [d] of whole days, rounded up, from
    [now] to the start: [(d - 1)] days < [startDate - now] <= [d] days.  It
    is 0 or negative exactly for an event that has started. *)
Theorem daysUntilEvent_ceiling (now : Z) (e : Event) :
  (∀ d, daysUntilEvent now e = d <->
        (d - 1) * DAY < startDate e - now <= d * DAY)
  ∧ (daysUntilEvent now e <= 0 <-> startDate e <= now).
Proof.
  unfold daysUntilEvent, ceilDiv. cbv zeta.
  assert (D : DAY = 86400000) by reflexivity. rewrite D.
  set (n := startDate e - now).
  pose proof (Z.div_mod (- n) 86400000 ltac:(lia)) as E.
  pose proof (Z.mod_pos_bound (- n) 86400000 ltac:(lia)) as B.
  split; [intros d; split|split]; lia.
Qed.

(** X2: the pre-save hook fills a duration of 0 with the minutes from
    [startDate] to [endDate], off by at most half a minute; it leaves any
    other duration alone; it sets [updatedAt], and touches nothing else but
    the slug. *)
Theorem preSave_duration (titleModified : bool) (now : Z) (e : Event) :
  let e' := preSave titleModified now e in
  (if decide (duration e = 0)
   then - 30000 < 60000 * duration e' - (endDate e - startDate e) <= 30000
   else duration e' = duration e)
  ∧ updatedAt e' = now
  ∧ e' = mkEvent (title e) (organizer e) (startDate e) (endDate e)
           (duration e') (status e) (visibility e) (pricing_tickets e)
           (maxAttendees e) (currentAttendees e) (attendees e) (hasChat e)
           (seo_slug e') now.
Proof.
  cbv zeta. split; [|done].
  unfold preSave, roundDiv. simpl.
  destruct (decide (duration e = 0)) as [-> | Hd].
  - simpl. set (n := endDate e - startDate e).
    pose proof (Z.div_mod (2 * n + 1000 * 60) (2 * (1000 * 60)) ltac:(lia)) as E.
    pose proof (Z.mod_pos_bound (2 * n + 1000 * 60) (2 * (1000 * 60)) ltac:(lia)) as B.
    lia.
  - by rewrite (proj2 (Z.eqb_neq _ _) Hd).
Qed.

Lemma dash_not_slug_char : slug_char "-"%char = false.
Proof. reflexivity. Qed.

Lemma dashRuns_chars in_run s : slug_chars (dashRuns in_run s).
Proof.
  revert in_run. induction s as [|c s IH]; intros in_run; simpl; [done|].
  destruct (slug_char c) eqn:C; simpl; [by auto|].
  destruct in_run; simpl; auto.
Qed.

Lemma dashRuns_single in_run s :
  single_dashes (dashRuns in_run s)
  ∧ (in_run = true -> first_char (dashRuns in_run s) ≠ Some "-"%char).
Proof.
  revert in_run. induction s as [|c s IH]; intros in_run; simpl; [done|].
  destruct (slug_char c) eqn:C; simpl.
  - split; [split; [|apply IH]|].
    + intros ->. by rewrite dash_not_slug_char in C.
    + intros _ [= ->]. by rewrite dash_not_slug_char in C.
  - destruct in_run; simpl; [apply IH|].
    split; [|done]. split; [|apply IH]. intros _. by apply IH.
Qed.

Lemma dropLastDash_empty s :
  dropLastDash s = EmptyString -> s = EmptyString ∨ s = "-".
Proof.
  destruct s as [|c [|c' s]]; simpl; auto.
  - destruct (Ascii.eqb_spec c "-"%char) as [->|]; [auto | done].
  - done.
Qed.

Lemma dropLastDash_first s :
  first_char s ≠ Some "-"%char -> first_char (dropLastDash s) ≠ Some "-"%char.
Proof.
  destruct s as [|c [|c' s]]; simpl; try done.
  by destruct (Ascii.eqb_spec c "-"%char).
Qed.

Lemma dropLastDash_chars s : slug_chars s -> slug_chars (dropLastDash s).
Proof.
  induction s as [|c s IH]; [done|]. intros [Hc Hs].
  destruct s as [|c' s].
  - simpl. by destruct (Ascii.eqb c "-"%char).
  - change (dropLastDash (String c (String c' s)))
      with (String c (dropLastDash (String c' s))).
    split; [done | by apply IH].
Qed.

Lemma dropLastDash_single s :
  single_dashes s ->
  single_dashes (dropLastDash s) ∧ last_char (dropLastDash s) ≠ Some "-"%char.
Proof.
  induction s as [|c s IH]; [done|]. intros [Hc Hs].
  destruct s as [|c' s].
  - simpl. destruct (Ascii.eqb_spec c "-"%char) as [->|Hne]; simpl; [done|].
    split; [done|]. by intros [= ->].
  - change (dropLastDash (String c (String c' s)))
      with (String c (dropLastDash (String c' s))).
    destruct (IH Hs) as [IH1 IH2]. split.
    + split; [|done]. intros Hd. apply dropLastDash_first. by apply Hc.
    + destruct (dropLastDash (String c' s)) as [|d r] eqn:E; [|done].
      apply dropLastDash_empty in E as [E|E]; [done|].
      injection E as -> ->. simpl. intros [= ->]. by apply Hc.
Qed.

(** X3: the part of a slug that comes from the title has only lowercase
    letters, digits and dashes, never two dashes in a row, and neither
    starts nor ends with a dash. *)
Theorem slug_title_part_clean (title : string) :
  let part := trimDashes (dashRuns false (toLowerCase title)) in
  slug_chars part
  ∧ single_dashes part
  ∧ first_char part ≠ Some "-"%char
  ∧ last_char part ≠ Some "-"%char.
Proof.
  cbv zeta. unfold trimDashes.
  pose proof (dashRuns_chars false (toLowerCase title)) as Hc.
  pose proof (dashRuns_single false (toLowerCase title)) as [Hs _].
  set (d := dashRuns false (toLowerCase title)) in *.
  assert (T : ∃ t, match d with
                   | String c s' => if Ascii.eqb c "-"%char then s' else d
                   | EmptyString => EmptyString
                   end = t
                   ∧ slug_chars t ∧ single_dashes t
                   ∧ first_char t ≠ Some "-"%char).
  { eexists. split; [reflexivity|]. destruct d as [|c s']; [done|].
    destruct Hc as [Hc1 Hc2]. destruct Hs as [Hs1 Hs2].
    destruct (Ascii.eqb_spec c "-"%char) as [->|Hne].
    - repeat split; try done. by apply Hs1.
    - repeat split; try done. by intros [= ->]. }
  destruct T as (t & -> & Tc & Ts & Tf).
  destruct (dropLastDash_single t Ts) as [? ?].
  repeat split; try done.
  - by apply dropLastDash_chars.
  - by apply dropLastDash_first.
Qed.

Lemma preSave_keeps_slug titleModified now e c t :
  seo_slug e = Some (String c t) ->
  seo_slug (preSave titleModified now e) = Some (String c t).
Proof. intros H. unfold preSave. simpl. rewrite H. by destruct titleModified. Qed.

Lemma slugOf_not_empty title now : ∃ c t, slugOf title now = String c t.
Proof.
  unfold slugOf. destruct (trimDashes _) as [|c t]; simpl; by eexists _, _.
Qed.

(** X4: a slug is assigned at most once.  After a save with a modified
    title the document has a non-empty slug, and no later save, with the
    title modified or not, changes it.  Saving twice at the same instant is
    the same as saving once. *)
Theorem slug_assigned_once (now : Z) (e : Event) (later : list (bool * Z)) :
  let e1 := preSave true now e in
  (∃ c t, seo_slug e1 = Some (String c t))
  ∧ seo_slug (saves later e1) = seo_slug e1
  ∧ ∀ titleModified,
      preSave titleModified now (preSave titleModified now e)
      = preSave titleModified now e.
Proof.
  cbv zeta.
  assert (H1 : ∃ c t, seo_slug (preSave true now e) = Some (String c t)).
  { unfold preSave. simpl. destruct (seo_slug e) as [[|c t]|]; simpl;
      try apply slugOf_not_empty.
    - destruct (slugOf_not_empty (title e) now) as (c & t & ->). by eexists _, _.
    - by eexists _, _.
    - destruct (slugOf_not_empty (title e) now) as (c & t & ->). by eexists _, _. }
  split; [done|]. split.
  - destruct H1 as (c & t & H1). rewrite H1.
    generalize dependent (preSave true now e). intros e1 H1.
    revert e1 H1. induction later as [|[m n] later IH]; intros e1 H1; [done|].
    simpl. apply IH. by apply preSave_keeps_slug.
  - intros titleModified. unfold preSave. simpl.
    assert (Hd : (if (if duration e =? 0
                      then roundDiv (endDate e - startDate e) (1000 * 60)
                      else duration e) =? 0
                  then roundDiv (endDate e - startDate e) (1000 * 60)
                  else if duration e =? 0
                       then roundDiv (endDate e - startDate e) (1000 * 60)
                       else duration e)
                 = if duration e =? 0
                   then roundDiv (endDate e - startDate e) (1000 * 60)
                   else duration e).
    { destruct (duration e =? 0) eqn:D; [|by rewrite D].
      by destruct (roundDiv _ _ =? 0). }
    rewrite Hd. f_equal.
    destruct titleModified; simpl; [|done].
    destruct (seo_slug e) as [[|c t]|]; simpl; try done;
      by destruct (slugOf_not_empty (title e) now) as (c' & t' & ->).
Qed.

Lemma sumZ_nonneg_zero (l : list Z) :
  Forall (fun z => 0 <= z) l ->
  0 <= sumZ l ∧ (sumZ l = 0 <-> Forall (fun z => z = 0) l).
Proof.
  induction 1 as [|z l Hz Hl [IH1 IH2]]; [by split|].
  unfold sumZ in *. simpl. split; [lia|]. split.
  - intros H. constructor; [lia|]. apply IH2. lia.
  - intros [-> Hl']%Forall_cons. apply IH2 in Hl'. lia.
Qed.

(** X5: when no ticket type is oversold, [availableTickets] is not
    negative, and it is 0 exactly when every ticket type is sold out. *)
Theorem availableTickets_sold_out (e : Event) (tickets : list Ticket) :
  pricing_tickets e = Some tickets ->
  Forall (fun t => sold t <= quantity t) tickets ->
  0 <= availableTickets e
  ∧ (availableTickets e = 0 <-> Forall (fun t => sold t = quantity t) tickets).
Proof.
  intros Hp Hs. unfold availableTickets. rewrite Hp, fold_left_remaining.
  rewrite Z.add_0_l.
  assert (Forall (fun z => 0 <= z) ((fun t => quantity t - sold t) <$> tickets))
    as Hn.
  { rewrite Forall_fmap. eapply Forall_impl; [exact Hs|]. simpl. lia. }
  destruct (sumZ_nonneg_zero _ Hn) as [H1 H2]. split; [done|].
  rewrite H2, Forall_fmap.
  split; intros H; (eapply Forall_impl; [exact H|]); intros t; simpl; lia.
Qed.

Lemma availableTickets_sold_out_witness :
  pricing_tickets Samples.gala
    = Some [mkTicket 10 100 30; mkTicket 25 20 20]
  ∧ Forall (fun t => sold t <= quantity t)
      [mkTicket 10 100 30; mkTicket 25 20 20]
  ∧ 0 <= availableTickets Samples.gala.
Proof.
  assert (F : Forall (fun t => sold t <= quantity t)
                [mkTicket 10 100 30; mkTicket 25 20 20]).
  { repeat constructor; simpl; lia. }
  split; [reflexivity|]. split; [exact F|].
  by apply (availableTickets_sold_out Samples.gala _ eq_refl F).
Defined.




End EventFurther.

(** ** The socket handler: rooms, connections and what handlers leave alone *)
Section SocketFurther.
Import UserModel EventModel SocketHandler.

Ltac run_handler :=
  unfold trace, state_after, run, try_catch, findById, findUser, save,
    emit_error, when, await, mbind, M_bind, mret, M_ret, bind, ret, throw,
    perform, get, modify;
  simpl.

Lemma on_join_event_rooms socket eventId now w :
  eventRooms (state_after (on_join_event socket eventId now) w) =
    match lookupEvent w eventId with
    | Ok (Some (_, e)) =>
        if hasAccess e (socket_userId socket)
        then room_joined (socket_id socket) eventId (eventRooms w)
        else eventRooms w
    | _ => eventRooms w
    end.
Proof.
  unfold on_join_event, room_joined. run_handler.
  destruct (lookupEvent w eventId) as [[[_id e]|]|exn]; simpl; [|done|done].
  destruct (hasAccess e (socket_userId socket)); simpl; [|done].
  apply map_eq. intros k.
  destruct (eventRooms w !! eventId) as [set|] eqn:R; simpl;
    destruct (decide (k = eventId)) as [->|Hne].
  - by rewrite lookup_alter_eq, lookup_insert_eq, R.
  - by rewrite lookup_alter_ne, lookup_insert_ne.
  - by rewrite lookup_alter_eq, !lookup_insert_eq.
  - by rewrite lookup_alter_ne, !lookup_insert_ne.
Qed.

Lemma on_leave_event_rooms socket eventId now w :
  eventRooms (state_after (on_leave_event socket eventId now) w)
  = room_left (socket_id socket) eventId (eventRooms w).
Proof.
  unfold on_leave_event, room_left. run_handler.
  destruct (eventRooms w !! eventId) as [set|] eqn:R; simpl; [|done].
  destruct (decide (set ∖ {[socket_id socket]} = ∅)) as [He|He].
  - rewrite bool_decide_eq_true_2 by (by rewrite He). simpl.
    by rewrite delete_insert_eq.
  - rewrite bool_decide_eq_false_2; [done|].
    intros Hs. apply He. by apply size_empty_inv, leibniz_equiv in Hs.
Qed.

(** The rooms after any client event. *)
Lemma handle_rooms socket ev now w :
  eventRooms (state_after (handle socket ev now) w) =
    match ev with
    | join_event eventId =>
        eventRooms (state_after (on_join_event socket eventId now) w)
    | leave_event eventId => room_left (socket_id socket) eventId (eventRooms w)
    | _ => eventRooms w
    end.
Proof.
  destruct ev; simpl; try done.
  - apply on_leave_event_rooms.
  - unfold on_event_update. run_handler. by repeat case_match; simplify_eq/=.
  - unfold on_send_event_message. run_handler.
    by repeat case_match; simplify_eq/=.
  - unfold on_request_event_stats. run_handler.
    by repeat case_match; simplify_eq/=.
  - unfold on_attendee_checkin. run_handler.
    by repeat case_match; simplify_eq/=.
Qed.

Lemma onConnection_rooms socket now w :
  eventRooms (state_after (onConnection socket now) w) = eventRooms w.
Proof.
  unfold onConnection, broadcastUserStatus. run_handler.
  by destruct (userSockets w !! socket_userId socket).
Qed.

Lemma rooms_open_step jwtVerify w w' :
  step jwtVerify w w' -> rooms_open w -> rooms_open w'.
Proof.
  intros Hstep I. destruct Hstep as [w id h now Hf|w socket ev now Ho
                                    |w socket reason now Ho|w events' users' find' save'].
  - destruct (connect_effect jwtVerify id h now w) as [->|(socket & <- & ->)];
      [done|].
    intros eventId set id. rewrite onConnection_rooms.
    destruct (onConnection_effect socket now w) as [-> _].
    intros Hs Hin. destruct (decide (id = socket_id socket)) as [->|Hne].
    + rewrite lookup_insert_eq. by eexists.
    + rewrite lookup_insert_ne by done. by eapply I.
  - destruct (handle_keeps_connections socket ev now w) as [Ha _].
    intros eventId set id. rewrite Ha, handle_rooms.
    destruct Ho as (c & Hc & _).
    destruct ev as [ev| ev | | | | | | | |]; try by apply I.
    + rewrite on_join_event_rooms.
      destruct (lookupEvent w ev) as [[[_id e]|]|exn]; try by apply I.
      destruct (hasAccess e (socket_userId socket)); [|by apply I].
      unfold room_joined. destruct (decide (eventId = ev)) as [->|Hne].
      * rewrite lookup_insert_eq. intros [= <-].
        intros [Hin| ->%elem_of_singleton]%elem_of_union; [|by eexists].
        destruct (eventRooms w !! ev) as [set0|] eqn:R; simpl in Hin;
          [by eapply I | by apply not_elem_of_empty in Hin].
      * rewrite lookup_insert_ne by done. by apply I.
    + unfold room_left. destruct (eventRooms w !! ev) as [set0|] eqn:R; [|by apply I].
      destruct (decide (set0 ∖ {[socket_id socket]} = ∅)).
      * destruct (decide (eventId = ev)) as [->|Hne];
          [by rewrite lookup_delete_eq|].
        rewrite lookup_delete_ne by done. by apply I.
      * destruct (decide (eventId = ev)) as [->|Hne].
        -- rewrite lookup_insert_eq. intros [= <-] [Hin _]%elem_of_difference.
           by eapply I.
        -- rewrite lookup_insert_ne by done. by apply I.
  - destruct (onDisconnect_effect socket reason now w) as (Ha & He & _).
    intros eventId set id. rewrite Ha, He, lookup_fmap.
    destruct (eventRooms w !! eventId) as [set0|] eqn:R; simpl; [|done].
    intros [= <-] [Hin Hne]%elem_of_difference.
    rewrite elem_of_singleton in Hne. rewrite lookup_delete_ne by done.
    by eapply I.
  - done.
Qed.

Lemma reachable_rooms_open jwtVerify w :
  reachable jwtVerify w -> rooms_open w.
Proof.
  intros (w0 & (_ & H0 & _) & Hr).
  assert (rooms_open w0) as I0.
  { intros eventId set id. by rewrite H0, lookup_empty. }
  clear H0. induction Hr as [|w1 w2 w3 Hs _ IH]; [done|].
  apply IH. by eapply rooms_open_step.
Qed.

Lemma length_omap_total {A B} (f : A -> option B) (l : list A) :
  (∀ x, x ∈ l -> is_Some (f x)) -> length (omap f l) = length l.
Proof.
  induction l as [|x l IH]; intros H; [done|]. simpl.
  destruct (H x) as [y Hy]; [apply list_elem_of_here|]. rewrite Hy. simpl.
  f_equal. apply IH. intros x' Hx'. apply H. by apply list_elem_of_further.
Qed.

Lemma length_omap_le {A B} (f : A -> option B) (l : list A) :
  (length (omap f l) <= length l)%nat.
Proof.
  induction l as [|x l IH]; [done|]. csimpl. destruct (f x); csimpl; lia.
Qed.

Lemma length_omap_filter {A B} (f : A -> option B) (l : list A) :
  length (omap f l) = length (filter (fun x => is_Some (f x)) l).
Proof.
  induction l as [|x l IH]; [done|]. csimpl. rewrite filter_cons.
  destruct (f x) as [y|]; csimpl.
  - by rewrite IH.
  - exact IH.
Qed.

(** X6: in any state, [getEventRoomUsers] returns one entry for each socket
    tracked in the room that is an open connection, built from that
    connection, and nothing for a tracked socket that is none; so it never
    returns more entries than the room tracks sockets, and exactly as many
    when every tracked socket is open. *)
Theorem getEventRoomUsers_complete w eventId :
  let room := default ∅ (eventRooms w !! eventId) in
  let entry := fun c =>
    mkRoomUser (conn_userId c) (fullName (conn_user c).2)
      (avatar (conn_user c).2) (connectedAt c) in
  length (getEventRoomUsers w eventId)
  = length (filter (fun id => is_Some (activeConnections w !! id))
              (elements room))
  ∧ (length (getEventRoomUsers w eventId) <= size room)%nat
  ∧ (∀ user, user ∈ getEventRoomUsers w eventId
       <-> ∃ id c, id ∈ room ∧ activeConnections w !! id = Some c
                   ∧ user = entry c)
  ∧ ((∀ id, id ∈ room -> is_Some (activeConnections w !! id)) ->
     length (getEventRoomUsers w eventId) = size room).
Proof.
  cbv zeta. unfold getEventRoomUsers. split; [|split; [|split]].
  - rewrite length_omap_filter. f_equal. apply list_filter_iff.
    intros id. by rewrite fmap_is_Some.
  - apply length_omap_le.
  - intros user. rewrite list_elem_of_omap. split.
    + intros (id & Hin%elem_of_elements & Hf).
      destruct (activeConnections w !! id) as [c|] eqn:Hc; [|done].
      injection Hf as <-. by exists id, c.
    + intros (id & c & Hin & Hc & ->). exists id.
      split; [by apply elem_of_elements|]. by rewrite Hc.
  - intros O. apply length_omap_total. intros id Hin%elem_of_elements.
    destruct (O id Hin) as [c ->]. by eexists.
Qed.

Lemma reachable_lobby : reachable Samples.verify Scenes.lobby.
Proof.
  exists Samples.hall. split; [done|]. apply rtc_once. by apply step_connect.
Qed.

Lemma is_open_lobby : is_open Scenes.lobby Samples.bob_socket.
Proof. eexists. split; reflexivity. Qed.

Lemma reachable_foyer : reachable Samples.verify Scenes.foyer.
Proof.
  destruct reachable_lobby as (w0 & H0 & Hr). exists w0. split; [done|].
  eapply rtc_r; [exact Hr|]. apply step_event, is_open_lobby.
Qed.

(** In the foyer the one tracked socket is open; in the hall with a room
    that tracks a socket which has no connection, the list is empty. *)
Lemma getEventRoomUsers_complete_witness :
  (∀ id, id ∈ default ∅ (eventRooms Scenes.foyer !! Samples.e1) ->
         is_Some (activeConnections Scenes.foyer !! id))
  ∧ length (getEventRoomUsers Scenes.foyer Samples.e1) = 1%nat
  ∧ getEventRoomUsers
      (set_eventRooms <[Samples.e1 := {["s9"]}]> Samples.hall) Samples.e1
    = [].
Proof.
  assert (R : eventRooms Scenes.foyer !! Samples.e1 = Some {["s2"]})
    by reflexivity.
  assert (O : ∀ id, id ∈ default ∅ (eventRooms Scenes.foyer !! Samples.e1) ->
                is_Some (activeConnections Scenes.foyer !! id)).
  { intros id. rewrite R. simpl. intros ->%elem_of_singleton. by eexists. }
  split; [exact O|]. split; [|by vm_compute].
  destruct (getEventRoomUsers_complete Scenes.foyer Samples.e1)
    as (_ & _ & _ & H).
  rewrite (H O), R. apply (size_singleton (C := gset SocketId)).
Defined.

(** X7: in every state the server can reach, a socket is an open
    connection exactly when some user's set lists it, and it is listed
    under one user only, the user of its connection. *)
Theorem sockets_listed_once jwtVerify w :
  reachable jwtVerify w ->
  ∀ id,
    (is_Some (activeConnections w !! id)
     <-> ∃ userId set, userSockets w !! userId = Some set ∧ id ∈ set)
    ∧ ∀ userId set, userSockets w !! userId = Some set -> id ∈ set ->
        ∃ c, activeConnections w !! id = Some c ∧ conn_userId c = userId.
Proof.
  intros Hr id. destruct (reachable_consistent _ _ Hr) as [I1 I2].
  split; [split|].
  - intros [c Hc]. destruct (I2 id c Hc) as (set & Hs & Hin). by eexists _, _.
  - intros (userId & set & Hs & Hin).
    destruct (I1 userId set Hs) as [_ H]. destruct (H id Hin) as (c & Hc & _).
    by eexists.
  - intros userId set Hs Hin. by apply (I1 userId set Hs).
Qed.

Lemma sockets_listed_once_witness :
  reachable Samples.verify Scenes.lobby
  ∧ userSockets Scenes.lobby !! "u2" = Some {["s2"]}
  ∧ ∃ c, activeConnections Scenes.lobby !! "s2" = Some c ∧ conn_userId c = "u2".
Proof.
  split; [exact reachable_lobby|].
  assert (U : userSockets Scenes.lobby !! "u2" = Some {["s2"]}).
  { vm_compute. reflexivity. }
  split; [exact U|].
  destruct (sockets_listed_once Samples.verify Scenes.lobby reachable_lobby "s2")
    as [_ H].
  apply (H "u2" {["s2"]} U). by apply elem_of_singleton.
Defined.

(** X8: leave_event always tells the room that the user has left, whether
    or not the socket was in the room, and reads no document.  Afterwards
    the socket is not tracked in that room, the room is never left with an
    empty set (its entry is deleted instead), and no other room changes. *)
Theorem leave_event_unconditional socket eventId now w :
  let w' := state_after (on_leave_event socket eventId now) w in
  let id := socket_id socket in
  trace (on_leave_event socket eventId now) w
  = [Leave id (event_room eventId);
     Emit id (ToRoomButSelf (event_room eventId))
       (user_left_event (socket_userId socket)
          (fullName (socket_user socket).2) now)]
  ∧ match eventRooms w' !! eventId with
    | Some set => set ≠ ∅ ∧ id ∉ set
    | None => True
    end
  ∧ ∀ other, other = eventId ∨ eventRooms w' !! other = eventRooms w !! other.
Proof.
  cbv zeta. split; [|split].
  - unfold on_leave_event. run_handler.
    destruct (eventRooms w !! eventId) as [set|]; simpl; [|done].
    by case_bool_decide.
  - rewrite on_leave_event_rooms. unfold room_left.
    destruct (eventRooms w !! eventId) as [set|] eqn:R; [|by rewrite R].
    destruct (decide (set ∖ {[socket_id socket]} = ∅)).
    + by rewrite lookup_delete_eq.
    + rewrite lookup_insert_eq. split; [done|].
      rewrite elem_of_difference, elem_of_singleton. tauto.
  - intros other. rewrite on_leave_event_rooms. unfold room_left.
    destruct (decide (other = eventId)) as [|Hne]; [by left|]. right.
    destruct (eventRooms w !! eventId) as [set|] eqn:R; [|done].
    destruct (decide (set ∖ {[socket_id socket]} = ∅)).
    + by rewrite lookup_delete_ne.
    + by rewrite lookup_insert_ne.
Qed.

(** X9: when a socket that is not yet in the room of an event joins it and
    then leaves it, [eventRooms] is as it was before, except that an empty
    set that was tracked for the event is gone. *)
Theorem join_then_leave socket eventId now now' w _id e :
  lookupEvent w eventId = Ok (Some (_id, e)) ->
  hasAccess e (socket_userId socket) = true ->
  socket_id socket ∉ default ∅ (eventRooms w !! eventId) ->
  eventRooms
    (state_after (on_leave_event socket eventId now')
       (state_after (on_join_event socket eventId now) w))
  = if decide (eventRooms w !! eventId = Some ∅)
    then delete eventId (eventRooms w)
    else eventRooms w.
Proof.
  intros He Ha Hin.
  rewrite on_leave_event_rooms, on_join_event_rooms, He, Ha.
  unfold room_left, room_joined. rewrite lookup_insert_eq.
  set (id := socket_id socket) in *.
  assert (Hd : (default ∅ (eventRooms w !! eventId) ∪ {[id]}) ∖ {[id]}
               = default ∅ (eventRooms w !! eventId)).
  { apply set_eq. intros x.
    rewrite elem_of_difference, elem_of_union, elem_of_singleton.
    split; [by intros [[?|?] ?] | intros Hx; split; [by left | by intros ->]]. }
  rewrite Hd.
  destruct (eventRooms w !! eventId) as [set|] eqn:R; simpl in *.
  - repeat case_decide; simplify_eq; try done.
    + by rewrite delete_insert_eq.
    + rewrite insert_insert_eq. by apply insert_id.
  - repeat case_decide; simplify_eq; try done.
    rewrite delete_insert_eq. by apply delete_id.
Qed.

Lemma join_then_leave_witness :
  lookupEvent Scenes.lobby Samples.e1 = Ok (Some (Samples.e1, Samples.gala))
  ∧ hasAccess Samples.gala "u2" = true
  ∧ ("s2" ∉ default ∅ (eventRooms Scenes.lobby !! Samples.e1))
  ∧ eventRooms
      (state_after (on_leave_event Samples.bob_socket Samples.e1 2)
         (state_after (on_join_event Samples.bob_socket Samples.e1 1) Scenes.lobby))
    = eventRooms Scenes.lobby.
Proof.
  assert (N : "s2" ∉ default ∅ (eventRooms Scenes.lobby !! Samples.e1)).
  { assert (eventRooms Scenes.lobby !! Samples.e1 = None) as -> by reflexivity.
    apply not_elem_of_empty. }
  split; [reflexivity|]. split; [reflexivity|]. split; [exact N|].
  by rewrite (join_then_leave Samples.bob_socket Samples.e1 1 2 Scenes.lobby
                Samples.e1 Samples.gala eq_refl eq_refl N).
Defined.

(** X10: the disconnect handler takes the socket out of every room but
    never deletes a room: [eventRooms] keeps its keys, so a room whose last
    socket disconnects stays tracked with an empty set. *)
Theorem onDisconnect_keeps_rooms socket reason now w :
  let w' := state_after (onDisconnect socket reason now) w in
  dom (eventRooms w') = dom (eventRooms w)
  ∧ ∀ eventId,
      eventRooms w' !! eventId
      = (fun set => set ∖ {[socket_id socket]}) <$> eventRooms w !! eventId.
Proof.
  cbv zeta. destruct (onDisconnect_effect socket reason now w) as (_ & -> & _).
  split; [apply dom_fmap_L | intros eventId; apply lookup_fmap].
Qed.

Ltac run_connect :=
  unfold connect, authenticate, jwt_verify, onConnection,
    broadcastUserStatus, result_of, findUserById;
  run_handler.

Lemma connect_accepted jwtVerify id h now w userId user :
  authentic jwtVerify h w userId user ->
  state_after (connect jwtVerify id h now) w
  = state_after (onConnection (mkSocket id userId (userId, user)) now) w.
Proof.
  intros (token & decoded & T & Hn & V & J & F & U & S).
  destruct token as [|c t]; [done|].
  run_connect. rewrite T. simpl. rewrite V. simpl. rewrite F, J. simpl.
  rewrite U. simpl. rewrite bool_decide_eq_false_2 by (intros Hs; by apply Hs).
  simpl. by destruct (userSockets w !! userId).
Qed.

(** X11: in a state the server can reach, an accepted connection on a new
    socket id followed by the disconnection of that socket puts
    [activeConnections], [userSockets] and [eventRooms] back as they
    were. *)
Theorem connect_then_disconnect jwtVerify w id h now reason now' userId user :
  reachable jwtVerify w ->
  activeConnections w !! id = None ->
  authentic jwtVerify h w userId user ->
  let w1 := state_after (connect jwtVerify id h now) w in
  let w2 :=
    state_after (onDisconnect (mkSocket id userId (userId, user)) reason now')
      w1 in
  activeConnections w2 = activeConnections w
  ∧ userSockets w2 = userSockets w
  ∧ eventRooms w2 = eventRooms w.
Proof.
  intros Hr Hf Ha. cbv zeta.
  destruct (reachable_consistent _ _ Hr) as [I1 I2].
  pose proof (reachable_rooms_open _ _ Hr) as I3.
  rewrite (connect_accepted _ _ _ _ _ _ _ Ha).
  set (socket := mkSocket id userId (userId, user)).
  destruct (onConnection_effect socket now w) as [Ca Cu].
  pose proof (onConnection_rooms socket now w) as Cr.
  destruct (onDisconnect_effect socket reason now'
              (state_after (onConnection socket now) w)) as (Da & Dr & Du).
  simpl in *. rewrite Da, Dr, Ca, Cr. rewrite Cu, lookup_insert_eq in Du.
  assert (Hnew : id ∉ default ∅ (userSockets w !! userId)).
  { destruct (userSockets w !! userId) as [set|] eqn:Us; simpl;
      [|apply not_elem_of_empty].
    intros Hin. destruct (I1 _ _ Us) as [_ H].
    destruct (H _ Hin) as (c & Hc & _). congruence. }
  assert (Hd : (default ∅ (userSockets w !! userId) ∪ {[id]}) ∖ {[id]}
               = default ∅ (userSockets w !! userId)).
  { apply set_eq. intros x.
    rewrite elem_of_difference, elem_of_union, elem_of_singleton.
    split; [by intros [[?|?] ?] | intros Hx; split; [by left | by intros ->]]. }
  rewrite Hd in Du. split; [|split].
  - rewrite delete_insert_eq. by apply delete_id.
  - destruct (userSockets w !! userId) as [set|] eqn:Us; simpl in Du.
    + destruct (I1 _ _ Us) as [Hne _].
      destruct (decide (set = ∅)) as [|_]; [done|]. destruct Du as [Du _].
      rewrite Du, insert_insert_eq. by apply insert_id.
    + destruct (decide (∅ = ∅)) as [_|Hn]; [|by destruct Hn].
      destruct Du as [Du _]. rewrite Du, delete_insert_eq.
      by apply delete_id.
  - apply map_eq. intros k. rewrite lookup_fmap.
    destruct (eventRooms w !! k) as [set|] eqn:R; simpl; [|done].
    f_equal. apply set_eq. intros x.
    rewrite elem_of_difference, elem_of_singleton.
    split; [by intros [? _]|]. intros Hx. split; [done|]. intros ->.
    destruct (I3 _ _ _ R Hx) as [c Hc]. congruence.
Qed.

Lemma connect_then_disconnect_witness :
  reachable Samples.verify Samples.hall
  ∧ activeConnections Samples.hall !! "s2" = None
  ∧ authentic Samples.verify Samples.bearer Samples.hall "u2" Samples.bob
  ∧ userSockets
      (state_after (onDisconnect Samples.bob_socket "transport close" 5)
         Scenes.lobby)
    = userSockets Samples.hall.
Proof.
  assert (R : reachable Samples.verify Samples.hall).
  { exists Samples.hall. split; [done | apply rtc_refl]. }
  assert (G : authentic Samples.verify Samples.bearer Samples.hall "u2"
                Samples.bob).
  { exists "tok-bob", (mkJwtPayload (Some "u2")). by repeat split. }
  split; [exact R|]. split; [reflexivity|]. split; [exact G|].
  by apply (connect_then_disconnect Samples.verify Samples.hall "s2"
              Samples.bearer 0 "transport close" 5 "u2" Samples.bob R eq_refl G).
Defined.

(** X12: the users collection is changed by no client event, and the
    events collection only by an attendee_checkin that the organiser of the
    event sends. *)
Theorem handlers_write_once socket ev now w :
  users (state_after (handle socket ev now) w) = users w
  ∧ (events (state_after (handle socket ev now) w) = events w
     ∨ ∃ eventId attendeeId _id e,
         ev = attendee_checkin eventId attendeeId
         ∧ lookupEvent w eventId = Ok (Some (_id, e))
         ∧ organizer e = socket_userId socket).
Proof.
  destruct ev as [ev|ev|ev ? ?|ev ? ?|ev|ev|? ?|?|ev|ev att]; simpl.
  - unfold on_join_event. run_handler.
    split; [|left]; by repeat case_match; simplify_eq/=.
  - unfold on_leave_event. run_handler.
    split; [|left]; by repeat case_match; simplify_eq/=.
  - unfold on_event_update. run_handler.
    split; [|left]; by repeat case_match; simplify_eq/=.
  - unfold on_send_event_message. run_handler.
    split; [|left]; by repeat case_match; simplify_eq/=.
  - by split; [|left].
  - by split; [|left].
  - by split; [|left].
  - by split; [|left].
  - unfold on_request_event_stats. run_handler.
    split; [|left]; by repeat case_match; simplify_eq/=.
  - unfold on_attendee_checkin. run_handler.
    destruct (lookupEvent w ev) as [[[_id e]|]|exn] eqn:E; simpl;
      [|by split; [|left]|by split; [|left]].
    case_bool_decide as Ho; simpl; [by split; [|left]|].
    destruct (attendees_id (castObjectId w) (attendees e) att) as [[i a]|];
      simpl; [|by split; [|left]].
    destruct (save_rejects w); simpl; [by split; [|left]|].
    split; [done|]. right. exists ev, att, _id, e. by repeat split.
Qed.

(** Settles a goal about an 'error' found in a log that is written out. *)
Ltac find_error :=
  let Hin := fresh "Hin" in
  let Hef := fresh "Hef" in
  let ef := fresh "ef" in
  intros Hin;
  repeat (apply elem_of_cons in Hin as [Hin|Hin]; [simplify_eq|]);
  try (by apply elem_of_nil in Hin);
  repeat split; try done;
  intros ef Hef;
  repeat (apply elem_of_cons in Hef as [->|Hef]; [done|]);
  by apply elem_of_nil in Hef.

(** X13: an 'error' is only ever emitted to the sender of the event, and a
    handler that emits one does nothing else: the state is unchanged and
    nothing in its log reaches other sockets or the database.  This holds
    of the errors that the handlers emit from their [catch] as of the
    others. *)
Theorem error_is_private socket ev now w sender target message :
  Emit sender target (error message) ∈ trace (handle socket ev now) w ->
  sender = socket_id socket
  ∧ target = ToSelf
  ∧ state_after (handle socket ev now) w = w
  ∧ ∀ ef, ef ∈ trace (handle socket ev now) w -> reaches_others ef = false.
Proof.
  destruct ev as [ev|ev|ev ? ?|ev ? ?|ev|ev|? ?|?|ev|ev att]; simpl.
  - unfold on_join_event. run_handler.
    destruct (lookupEvent w ev) as [[[_id e]|]|exn]; simpl;
      [|find_error|find_error].
    destruct (hasAccess e (socket_userId socket)); simpl; [|find_error].
    destruct (eventRooms w !! ev); simpl; find_error.
  - unfold on_leave_event. run_handler.
    destruct (eventRooms w !! ev); simpl; [|find_error].
    case_bool_decide; simpl; find_error.
  - unfold on_event_update. run_handler.
    destruct (lookupEvent w ev) as [[[_id e]|]|exn]; simpl;
      [|find_error|find_error].
    case_bool_decide; simpl; find_error.
  - unfold on_send_event_message. run_handler.
    destruct (lookupEvent w ev) as [[[_id e]|]|exn]; simpl;
      [|find_error|find_error].
    destruct (hasChat e); simpl; find_error.
  - unfold on_typing_start. run_handler. find_error.
  - unfold on_typing_stop. run_handler. find_error.
  - unfold on_send_notification. run_handler. find_error.
  - unfold on_mark_notification_read. run_handler. find_error.
  - unfold on_request_event_stats. run_handler.
    destruct (lookupEvent w ev) as [[[_id e]|]|exn]; simpl; find_error.
  - unfold on_attendee_checkin. run_handler.
    destruct (lookupEvent w ev) as [[[_id e]|]|exn]; simpl;
      [|find_error|find_error].
    case_bool_decide; simpl; [find_error|].
    destruct (attendees_id (castObjectId w) (attendees e) att) as [[i a]|];
      simpl; [|find_error].
    destruct (save_rejects w); simpl; find_error.
Qed.

(** The errors of the five [catch] blocks, each on a run that reaches it,
    and of the seven tests that the handlers make themselves. *)
Example errors_emitted :
  trace (handle Samples.bob_socket (join_event "e1") 0) Samples.hall
  = [DbFind "e1"; Emit "s2" ToSelf (error "Failed to join event")]
  ∧ trace (handle Samples.bob_socket (event_update "e1" "venue" "hall B") 0)
      Samples.hall
    = [DbFind "e1"; Emit "s2" ToSelf (error "Failed to update event")]
  ∧ trace (handle Samples.bob_socket (send_event_message "e1" "hello" None) 0)
      Samples.hall
    = [DbFind "e1"; Emit "s2" ToSelf (error "Failed to send message")]
  ∧ trace (handle Samples.bob_socket (request_event_stats "e1") 0) Samples.hall
    = [DbFind "e1"; Emit "s2" ToSelf (error "Failed to get event stats")]
  ∧ trace (handle Samples.alice_socket (attendee_checkin Samples.e1 Samples.a1) 0)
      Samples.readonly
    = [DbFind Samples.e1; Emit "s1" ToSelf (error "Check-in failed")]
  ∧ trace (handle Samples.bob_socket (join_event Samples.e3) 0) Samples.hall
    = [DbFind Samples.e3; Emit "s2" ToSelf (error "Event not found")]
  ∧ trace (handle Samples.bob_socket (join_event Samples.e3) 0)
      Samples.parlour
    = [DbFind Samples.e3;
       Emit "s2" ToSelf (error "Access denied to this event")]
  ∧ trace (handle Samples.bob_socket (event_update Samples.e1 "venue" "hall B") 0)
      Samples.hall
    = [DbFind Samples.e1;
       Emit "s2" ToSelf (error "Unauthorized to update this event")]
  ∧ trace (handle Samples.bob_socket (send_event_message Samples.e2 "hello" None) 0)
      Samples.hall
    = [DbFind Samples.e2;
       Emit "s2" ToSelf (error "Chat not available for this event")]
  ∧ trace (handle Samples.bob_socket (request_event_stats Samples.e3) 0)
      Samples.hall
    = [DbFind Samples.e3; Emit "s2" ToSelf (error "Event not found")]
  ∧ trace (handle Samples.bob_socket (attendee_checkin Samples.e1 Samples.a1) 0)
      Samples.hall
    = [DbFind Samples.e1; Emit "s2" ToSelf (error "Unauthorized")].
Proof. by repeat split. Qed.

Lemma error_is_private_witness :
  (Emit "s2" ToSelf (error "Unauthorized")
     ∈ trace (handle Samples.bob_socket
                (attendee_checkin Samples.e1 Samples.a1) 4)
         Samples.hall
   ∧ state_after
       (handle Samples.bob_socket (attendee_checkin Samples.e1 Samples.a1) 4)
       Samples.hall = Samples.hall)
  ∧ (Emit "s1" ToSelf (error "Check-in failed")
       ∈ trace (handle Samples.alice_socket
                  (attendee_checkin Samples.e1 Samples.a1) 4)
           Samples.readonly
     ∧ state_after
         (handle Samples.alice_socket (attendee_checkin Samples.e1 Samples.a1) 4)
         Samples.readonly = Samples.readonly)
  ∧ (Emit "s2" ToSelf (error "Failed to join event")
       ∈ trace (handle Samples.bob_socket (join_event "e1") 4) Samples.hall
     ∧ ∀ ef, ef ∈ trace (handle Samples.bob_socket (join_event "e1") 4)
                     Samples.hall ->
             reaches_others ef = false).
Proof.
  assert (E1 : Emit "s2" ToSelf (error "Unauthorized")
                ∈ trace (handle Samples.bob_socket
                           (attendee_checkin Samples.e1 Samples.a1) 4)
                    Samples.hall).
  { apply list_elem_of_further, list_elem_of_here. }
  assert (E2 : Emit "s1" ToSelf (error "Check-in failed")
                ∈ trace (handle Samples.alice_socket
                           (attendee_checkin Samples.e1 Samples.a1) 4)
                    Samples.readonly).
  { apply list_elem_of_further, list_elem_of_here. }
  assert (E3 : Emit "s2" ToSelf (error "Failed to join event")
                ∈ trace (handle Samples.bob_socket (join_event "e1") 4)
                    Samples.hall).
  { apply list_elem_of_further, list_elem_of_here. }
  split; [|split]; (split; [done|]).
  - by apply (error_is_private Samples.bob_socket
                (attendee_checkin Samples.e1 Samples.a1) 4
                Samples.hall "s2" ToSelf "Unauthorized" E1).
  - by apply (error_is_private Samples.alice_socket
                (attendee_checkin Samples.e1 Samples.a1) 4
                Samples.readonly "s1" ToSelf "Check-in failed" E2).
  - by apply (error_is_private Samples.bob_socket (join_event "e1") 4
                Samples.hall "s2" ToSelf "Failed to join event" E3).
Defined.

Lemma checkedIn_insert now (l : list Attendee) i a :
  l !! i = Some a ->
  checkedIn (<[i := checkIn now a]> l)
  = (checkedIn l + if decide (is_Some (checkInTime a)) then 0 else 1)%nat.
Proof.
  unfold checkedIn. revert i. induction l as [|x l IH]; intros i Hi; [done|].
  destruct i as [|i]; simpl in Hi.
  - injection Hi as ->.
    change (<[0%nat := checkIn now a]> (a :: l)) with (checkIn now a :: l).
    rewrite (filter_cons_True _ (checkIn now a)) by (by eexists).
    destruct (decide (is_Some (checkInTime a))) as [Hc|Hc].
    + rewrite filter_cons_True by done. simpl. lia.
    + rewrite (filter_cons_False _ a) by done. simpl. lia.
  - change (<[S i := checkIn now a]> (x :: l))
      with (x :: <[i := checkIn now a]> l).
    specialize (IH i Hi).
    destruct (decide (is_Some (checkInTime x))) as [Hc|Hc].
    + rewrite !filter_cons_True by done. simpl. by rewrite IH.
    + by rewrite !filter_cons_False by done.
Qed.

(** X14: a check-in by the organiser, when its save resolves, counts an
    attendee once: the broadcast total is the number checked in before,
    plus one only if this attendee had no check-in time yet.  When the
    organiser names an attendee the event does not have, the handler
    fetches the event and then does nothing: no save, no emission, not
    even an 'error'.  When the save is rejected, the organiser gets
    'Check-in failed' and nothing is broadcast or changed. *)
Theorem checkin_counts_once socket eventId attendeeId now w _id e :
  lookupEvent w eventId = Ok (Some (_id, e)) ->
  organizer e = socket_userId socket ->
  (∀ i a, attendees_id (castObjectId w) (attendees e) attendeeId
          = Some (i, a) ->
     (save_rejects w = false ->
      trace (on_attendee_checkin socket eventId attendeeId now) w
      = [DbFind eventId; DbSave _id;
         Emit (socket_id socket) (ToRoom (event_room eventId))
           (attendee_checked_in eventId attendeeId now
              (checkedIn (attendees e)
               + if decide (is_Some (checkInTime a)) then 0 else 1)%nat)])
     ∧ (save_rejects w = true ->
        trace (on_attendee_checkin socket eventId attendeeId now) w
        = [DbFind eventId;
           Emit (socket_id socket) ToSelf (error "Check-in failed")]
        ∧ state_after (on_attendee_checkin socket eventId attendeeId now) w
          = w))
  ∧ (attendees_id (castObjectId w) (attendees e) attendeeId = None ->
     trace (on_attendee_checkin socket eventId attendeeId now) w
     = [DbFind eventId]
     ∧ state_after (on_attendee_checkin socket eventId attendeeId now) w = w).
Proof.
  intros E Ho. unfold on_attendee_checkin. run_handler. rewrite E. simpl.
  rewrite bool_decide_eq_false_2 by (intros Hn; by apply Hn).
  simpl. split.
  - intros i a F. rewrite F. simpl. split; intros ->; simpl; [|done].
    repeat f_equal. apply checkedIn_insert.
    unfold attendees_id in F.
    destruct (castObjectId w attendeeId) as [casted|]; [|done].
    simpl in F. by apply list_find_Some in F as (? & _).
  - intros F. by rewrite F.
Qed.

Lemma checkin_counts_once_witness :
  lookupEvent Samples.hall Samples.e1 = Ok (Some (Samples.e1, Samples.gala))
  ∧ organizer Samples.gala = "u1"
  ∧ attendees_id (castObjectId Samples.hall) (attendees Samples.gala)
      "0000000000000000000000A1"
    = Some (0%nat, mkAttendee Samples.a1 "u2" registered None)
  ∧ save_rejects Samples.hall = false
  ∧ attendees_id (castObjectId Samples.hall) (attendees Samples.gala) "zz"
    = None
  ∧ trace (on_attendee_checkin Samples.alice_socket Samples.e1 "zz" 6) Samples.hall
    = [DbFind Samples.e1]
  ∧ trace (on_attendee_checkin Samples.alice_socket Samples.e1
             "0000000000000000000000A1" 6)
      Samples.hall
    = [DbFind Samples.e1; DbSave Samples.e1;
       Emit "s1" (ToRoom "event_0000000000000000000000e1")
         (attendee_checked_in Samples.e1 "0000000000000000000000A1" 6 1)]
  ∧ save_rejects Samples.readonly = true
  ∧ trace (on_attendee_checkin Samples.alice_socket Samples.e1 Samples.a1 6)
      Samples.readonly
    = [DbFind Samples.e1; Emit "s1" ToSelf (error "Check-in failed")].
Proof.
  do 5 (split; [reflexivity|]). split; [|split; [|split; [reflexivity|]]].
  - destruct (checkin_counts_once Samples.alice_socket Samples.e1 "zz" 6
                Samples.hall Samples.e1 Samples.gala eq_refl eq_refl)
      as [_ H].
    by destruct (H eq_refl) as [-> _].
  - destruct (checkin_counts_once Samples.alice_socket Samples.e1
                "0000000000000000000000A1" 6 Samples.hall Samples.e1
                Samples.gala eq_refl eq_refl) as [H _].
    destruct (H _ _ eq_refl) as [H1 _]. by rewrite (H1 eq_refl).
  - destruct (checkin_counts_once Samples.alice_socket Samples.e1 Samples.a1 6
                Samples.readonly Samples.e1 Samples.gala eq_refl eq_refl)
      as [H _].
    destruct (H _ _ eq_refl) as [_ H2]. by destruct (H2 eq_refl) as [-> _].
Defined.

(** X15: the middleware reads the token of a header 'Bearer <token>' back
    as <token>, when [auth.token] is absent or empty; a non-empty
    [auth.token] is used whatever the header says. *)
Theorem bearer_header_round_trip :
  (∀ token,
     handshakeToken (mkHandshake None (Some ("Bearer " +:+ token)))
     = Some token)
  ∧ (∀ token,
       handshakeToken
         (mkHandshake (Some EmptyString) (Some ("Bearer " +:+ token)))
       = Some token)
  ∧ (∀ c t header,
       handshakeToken (mkHandshake (Some (String c t)) header)
       = Some (String c t)).
Proof.
  assert (P : ∀ s, String.prefix EmptyString s = true) by (by intros []).
  split; [|split]; intros; unfold handshakeToken, or_else; simpl; try done.
  all: by rewrite P.
Qed.

Lemma on_request_event_stats_trace socket eventId now w :
  trace (on_request_event_stats socket eventId now) w =
    match lookupEvent w eventId with
    | Ok (Some (_, e)) =>
        [DbFind eventId;
         Emit (socket_id socket) ToSelf
           (event_stats eventId (length (attendees e))
              (checkedIn (attendees e)) (getAvailableSpots e)
              (default 0%nat (size <$> eventRooms w !! eventId)) now)]
    | Ok None =>
        [DbFind eventId;
         Emit (socket_id socket) ToSelf (error "Event not found")]
    | Thrown _ =>
        [DbFind eventId;
         Emit (socket_id socket) ToSelf (error "Failed to get event stats")]
    end.
Proof.
  unfold on_request_event_stats. run_handler.
  by destruct (lookupEvent w eventId) as [[[_id e]|]|exn].
Qed.

(** join_event leaves the database as it is. *)
Lemma on_join_event_lookup socket eventId now w other :
  lookupEvent (state_after (on_join_event socket eventId now) w) other
  = lookupEvent w other.
Proof.
  unfold on_join_event. run_handler.
  destruct (lookupEvent w eventId) as [[[_id e]|]|exn]; simpl; try done.
  destruct (hasAccess e (socket_userId socket)); simpl; [|done].
  by destruct (eventRooms w !! eventId).
Qed.

(** X26: [onlineViewers] counts sockets: after a socket that was not in the
    room of an event has joined it, request_event_stats reports one viewer
    more and the same figures otherwise. *)
Theorem join_raises_viewers socket eventId now now' w _id e :
  lookupEvent w eventId = Ok (Some (_id, e)) ->
  hasAccess e (socket_userId socket) = true ->
  socket_id socket ∉ default ∅ (eventRooms w !! eventId) ->
  let w' := state_after (on_join_event socket eventId now) w in
  ∃ viewers,
    trace (on_request_event_stats socket eventId now') w
    = [DbFind eventId;
       Emit (socket_id socket) ToSelf
         (event_stats eventId (length (attendees e)) (checkedIn (attendees e))
            (getAvailableSpots e) viewers now')]
    ∧ trace (on_request_event_stats socket eventId now') w'
      = [DbFind eventId;
         Emit (socket_id socket) ToSelf
           (event_stats eventId (length (attendees e)) (checkedIn (attendees e))
              (getAvailableSpots e) (S viewers) now')].
Proof.
  intros He Ha Hin. cbv zeta.
  exists (default 0%nat (size <$> eventRooms w !! eventId)).
  rewrite !on_request_event_stats_trace, on_join_event_lookup, He.
  split; [done|]. rewrite on_join_event_rooms, He, Ha. unfold room_joined.
  rewrite lookup_insert_eq.
  assert (Hsize : size (default ∅ (eventRooms w !! eventId) ∪ {[socket_id socket]})
                  = S (default 0%nat (size <$> eventRooms w !! eventId))).
  { rewrite size_union by (by apply disjoint_singleton_r).
    rewrite size_singleton.
    destruct (eventRooms w !! eventId) as [set|].
    - change (size set + 1 = S (size set))%nat. lia.
    - change (size (∅ : gset SocketId) + 1 = 1)%nat. by rewrite size_empty. }
  cbn [fmap option_fmap option_map default]. by rewrite Hsize.
Qed.

Lemma join_raises_viewers_witness :
  lookupEvent Scenes.lobby Samples.e1 = Ok (Some (Samples.e1, Samples.gala))
  ∧ hasAccess Samples.gala "u2" = true
  ∧ ("s2" ∉ default ∅ (eventRooms Scenes.lobby !! Samples.e1))
  ∧ ∃ viewers,
      trace (on_request_event_stats Samples.bob_socket Samples.e1 3) Scenes.foyer
      = [DbFind Samples.e1;
         Emit "s2" ToSelf
           (event_stats Samples.e1 1 0 (getAvailableSpots Samples.gala) (S viewers) 3)].
Proof.
  assert (N : "s2" ∉ default ∅ (eventRooms Scenes.lobby !! Samples.e1)).
  { assert (eventRooms Scenes.lobby !! Samples.e1 = None) as -> by reflexivity.
    apply not_elem_of_empty. }
  split; [reflexivity|]. split; [reflexivity|]. split; [exact N|].
  destruct (join_raises_viewers Samples.bob_socket Samples.e1 1 3 Scenes.lobby
              Samples.e1 Samples.gala eq_refl eq_refl N) as (viewers & _ & H).
  exists viewers. exact H.
Defined.

End SocketFurther.

(** ** The client authentication service: storage, validity and logout *)
Section AuthFurther.
Import AuthService.

(** X16: a token that has been stored is read back, and after
    [removeStoredToken] nothing is read back.  An empty token is the
    exception in production, where the cookie reads back as no token. *)
Theorem token_store_round_trip (production : bool) (token : string) (s : Service) :
  getStoredToken production (storeToken production token s)
  = match token with
    | EmptyString => if production then None else Some EmptyString
    | String _ _ => Some token
    end
  ∧ getStoredToken production
      (removeStoredToken production (storeToken production token s)) = None.
Proof.
  unfold getStoredToken, storeToken, removeStoredToken.
  by destruct production, token.
Qed.

Lemma scheduleTokenRefresh_frame jwtDecode token now s :
  let s' := scheduleTokenRefresh jwtDecode token now s in
  isAuthenticated s' = isAuthenticated s
  ∧ currentUser s' = currentUser s
  ∧ cookie s' = cookie s
  ∧ localStorage s' = localStorage s
  ∧ navigations s' = navigations s.
Proof.
  cbv zeta. unfold scheduleTokenRefresh, clearTokenRefreshTimer.
  destruct (jwtDecode token) as [[[e|]]|]; simpl; try done.
  destruct (0 <? e * 1000 - REFRESH_THRESHOLD - now); [|done].
  by destruct (tokenRefreshTimer s).
Qed.

Lemma scheduleTokenRefresh_stored production jwtDecode token now s :
  getStoredToken production (scheduleTokenRefresh jwtDecode token now s)
  = getStoredToken production s.
Proof.
  destruct (scheduleTokenRefresh_frame jwtDecode token now s)
    as (_ & _ & Hc & Hl & _).
  unfold getStoredToken. by rewrite Hc, Hl.
Qed.

Lemma clearAuthState_cleared production s :
  getStoredToken production (clearAuthState production s) = None
  ∧ isAuthenticated (clearAuthState production s) = false
  ∧ currentUser (clearAuthState production s) = None
  ∧ timers (clearAuthState production s) = timers s.
Proof.
  unfold clearAuthState, removeStoredToken, getStoredToken.
  by destruct production.
Qed.

(** X17: a failed logout or refresh logs the user out whatever the error
    is, and the [catchError] of every other call changes the service only
    on a server-side 401.  The error callback of [loadUserProfile] runs
    after the [catchError] of getUserProfile and clears the token, the
    user and the flag whatever the error is: after a profile load that
    fails with anything but a 401 the service is logged out, yet nothing
    has navigated to /login and a pending refresh timer is still pending;
    the refresh that such a timer starts fails with 'No token
    available'. *)
Theorem error_paths (production : bool) (call : Call)
    (error : HttpErrorResponse) (s : Service) :
  let unauthorized := negb (clientSide error) && (http_status error =? 401) in
  let s' := loadUserProfile_error production error s in
  onError production call error s =
    match call with
    | logout | refreshToken => handleLogout production s
    | _ => if unauthorized then handleLogout production s else s
    end
  ∧ getStoredToken production s' = None
  ∧ currentUser s' = None
  ∧ isAuthenticated s' = false
  ∧ refreshToken_start production s' = refresh_failed "No token available"
  ∧ (unauthorized = false ->
     timers s' = timers s
     ∧ tokenRefreshTimer s' = tokenRefreshTimer s
     ∧ navigations s' = navigations s)
  ∧ (unauthorized = true ->
     navigations s' = navigations s ++ ["/login"]
     ∧ tokenRefreshTimer s' = None).
Proof.
  cbv zeta.
  assert (E : ∀ call', onError production call' error s =
            match call' with
            | logout | refreshToken => handleLogout production s
            | _ =>
                if negb (clientSide error) && (http_status error =? 401)
                then handleLogout production s
                else s
            end).
  { intros call'. destruct call'; simpl; try done; unfold handleError;
      destruct (clientSide error); simpl; try done;
      destruct (http_status error =? 401); simpl; try done;
      by destruct (serverMessage error) as [[|c m]|]. }
  split; [apply E|].
  unfold loadUserProfile_error. rewrite (E getUserProfile).
  unfold refreshToken_start.
  destruct (clearAuthState_cleared production
              (if negb (clientSide error) && (http_status error =? 401)
               then handleLogout production s else s)) as (C1 & C2 & C3 & C4).
  rewrite C1, C2, C3. do 4 (split; [done|]).
  clear C1 C2 C3 C4.
  destruct (negb (clientSide error) && (http_status error =? 401)).
  - split; [done|]. intros _.
    unfold handleLogout, clearTokenRefreshTimer, clearAuthState,
      removeStoredToken.
    destruct production; simpl;
      by destruct (tokenRefreshTimer s) eqn:T; simpl; rewrite ?T.
  - split; [|done]. intros _.
    unfold clearAuthState, removeStoredToken. by destruct production.
Qed.

(** A signed-in client whose profile load fails with a 500. *)
Lemma error_paths_witness :
  let error := mkHttpErrorResponse false EmptyString 500 None in
  let s' := loadUserProfile_error false error Samples.session in
  negb (clientSide error) && (http_status error =? 401) = false
  ∧ isAuthenticated Samples.session = true
  ∧ isAuthenticated s' = false
  ∧ timers s' = timers Samples.session
  ∧ timers s' = {[0%nat := 1700000]}
  ∧ navigations s' = []
  ∧ negb (clientSide Samples.unauthorized)
    && (http_status Samples.unauthorized =? 401) = true
  ∧ navigations
      (loadUserProfile_error false Samples.unauthorized Samples.session)
    = ["/login"].
Proof.
  cbv zeta.
  destruct (error_paths false getUserProfile
              (mkHttpErrorResponse false EmptyString 500 None) Samples.session)
    as (_ & _ & _ & A & _ & H & _).
  split; [reflexivity|]. split; [reflexivity|]. split; [exact A|].
  destruct (H eq_refl) as (Ht & _ & Hn). rewrite Ht, Hn.
  do 3 (split; [reflexivity|]). split; [reflexivity|].
  destruct (error_paths false getUserProfile Samples.unauthorized
              Samples.session) as (_ & _ & _ & _ & _ & _ & H').
  by destruct (H' eq_refl) as [-> _].
Defined.

(** X18: when the service starts it is authenticated exactly when a
    non-empty token is stored and that token has not expired; otherwise the
    stored token is removed and no timer is set.  No user is known yet in
    either case. *)
Theorem initializeAuth_checks_token production jwtDecode now cookie
    localStorage :
  let s0 := fresh cookie localStorage in
  let s := initializeAuth production jwtDecode now s0 in
  (isAuthenticated s = true <->
   ∃ token, getStoredToken production s0 = Some token
            ∧ token ≠ EmptyString
            ∧ isTokenValid jwtDecode token now = true)
  ∧ (isAuthenticated s = false ∧ getStoredToken production s = None
     ∧ timers s = ∅
     ∨ isAuthenticated s = true
       ∧ getStoredToken production s = getStoredToken production s0)
  ∧ currentUser s = None.
Proof.
  cbv zeta. unfold initializeAuth.
  set (s0 := fresh cookie localStorage).
  destruct (clearAuthState_cleared production s0) as (C1 & C2 & C3 & C4).
  destruct (getStoredToken production s0) as [[|c t]|] eqn:G.
  - rewrite C2, C3, C1, C4. split; [|split; [by left | done]].
    split; [done|]. by intros (token & [= <-] & ? & _).
  - destruct (isTokenValid jwtDecode (String c t) now) eqn:V.
    + destruct (scheduleTokenRefresh_frame jwtDecode (String c t) now
                  (setAuthState (String c t) s0)) as (-> & -> & _).
      rewrite scheduleTokenRefresh_stored. simpl.
      assert (getStoredToken production (setAuthState (String c t) s0)
              = Some (String c t)) as G' by exact G.
      split; [|split; [by right | done]].
      split; [|done]. intros _. by exists (String c t).
    + rewrite C2, C3, C1, C4. split; [|split; [by left | done]].
      split; [done|]. intros (token & [= <-] & _ & ?). congruence.
  - rewrite C2, C3, C1, C4. split; [|split; [by left | done]].
    split; [done|]. by intros (token & ? & _).
Qed.

(** X19: [scheduleTokenRefresh] changes the service only for a token that
    [isTokenValid] accepts, and the timer it then holds fires later than
    now and while the token is still valid.  A valid token within
    [REFRESH_THRESHOLD] of its expiry gets no timer. *)
Theorem refresh_only_for_valid jwtDecode (token : string) (now : Z) (s : Service) :
  let s' := scheduleTokenRefresh jwtDecode token now s in
  (s' ≠ s ->
   isTokenValid jwtDecode token now = true
   ∧ ∃ t due, tokenRefreshTimer s' = Some t ∧ timers s' !! t = Some due
              ∧ now < due ∧ isTokenValid jwtDecode token due = true)
  ∧ (∀ e, jwtDecode token ≫= exp = Some e ->
          now < e * 1000 <= now + REFRESH_THRESHOLD ->
          isTokenValid jwtDecode token now = true ∧ s' = s).
Proof.
  cbv zeta. unfold scheduleTokenRefresh, isTokenValid.
  destruct (jwtDecode token) as [[[e|]]|]; simpl; [|by split..].
  split.
  - destruct (0 <? e * 1000 - REFRESH_THRESHOLD - now) eqn:D; [|done].
    apply Z.ltb_lt in D. intros _. unfold REFRESH_THRESHOLD in *.
    split; [apply Z.ltb_lt; lia|].
    exists (nextTimer (clearTokenRefreshTimer s)),
           (now + setIntervalDelay (e * 1000 - 5 * 60 * 1000 - now)).
    simpl. rewrite lookup_insert_eq.
    pose proof (setIntervalDelay_bounds _ D) as B.
    repeat split; [lia | apply Z.ltb_lt; lia].
  - intros e' [= <-] [H1 H2]. split; [by apply Z.ltb_lt|].
    assert ((0 <? e * 1000 - REFRESH_THRESHOLD - now) = false) as ->; [|done].
    apply Z.ltb_ge. lia.
Qed.

Lemma refresh_only_for_valid_witness :
  scheduleTokenRefresh Samples.decode "jwt" 1000000 (fresh None (Some "jwt"))
    ≠ fresh None (Some "jwt")
  ∧ isTokenValid Samples.decode "jwt" 1000000 = true
  ∧ (Samples.decode "jwt" ≫= exp = Some 2000
     ∧ 1900000 < 2000 * 1000 <= 1900000 + REFRESH_THRESHOLD
     ∧ scheduleTokenRefresh Samples.decode "jwt" 1900000 Samples.session
       = Samples.session).
Proof.
  assert (N : scheduleTokenRefresh Samples.decode "jwt" 1000000
                (fresh None (Some "jwt")) ≠ fresh None (Some "jwt")).
  { intros H. apply (f_equal nextTimer) in H. vm_compute in H. discriminate. }
  assert (B : 1900000 < 2000 * 1000 <= 1900000 + REFRESH_THRESHOLD).
  { unfold REFRESH_THRESHOLD. lia. }
  split; [exact N|]. split; [|split; [reflexivity|split; [exact B|]]].
  - destruct (refresh_only_for_valid Samples.decode "jwt" 1000000
                (fresh None (Some "jwt"))) as [H _].
    by destruct (H N) as [-> _].
  - destruct (refresh_only_for_valid Samples.decode "jwt" 1900000
                Samples.session) as [_ H].
    by destruct (H 2000 eq_refl B) as [_ ->].
Defined.

Lemma token_kept_logged_out production s :
  isAuthenticated s = false -> token_kept production s.
Proof. intros H Ht. congruence. Qed.

Lemma handleLogout_logged_out production s :
  isAuthenticated (handleLogout production s) = false.
Proof.
  unfold handleLogout, clearTokenRefreshTimer, clearAuthState,
    removeStoredToken.
  destruct production; simpl; by destruct (tokenRefreshTimer s).
Qed.

Lemma token_kept_handleError production error s :
  token_kept production s -> token_kept production (handleError production error s).1.
Proof.
  intros Hs. unfold handleError.
  destruct (clientSide error); [done|].
  destruct (http_status error =? 401);
    [apply token_kept_logged_out, handleLogout_logged_out|].
  by destruct (serverMessage error) as [[|c m]|].
Qed.

Lemma token_kept_onError production call error s :
  token_kept production s -> token_kept production (onError production call error s).
Proof.
  intros Hs. destruct call; simpl;
    by (apply token_kept_handleError
        || apply token_kept_logged_out, handleLogout_logged_out).
Qed.

Lemma token_kept_stored production (response : AuthResponse) s s1 :
  carriesToken response = true ->
  getStoredToken production s1
  = getStoredToken production (storeToken production (data_token response) s) ->
  token_kept production s1.
Proof.
  unfold carriesToken. intros Hc%andb_true_iff G _.
  destruct Hc as [_ Hc]. destruct (data_token response) as [|c t]; [done|].
  exists c, t. rewrite G. unfold getStoredToken, storeToken.
  by destruct production.
Qed.

Lemma token_kept_onResponse production jwtDecode call response now s :
  token_kept production s ->
  token_kept production (onResponse production jwtDecode call response now s).
Proof.
  intros Hs. destruct call; simpl; try done.
  1,2,6: destruct (carriesToken response) eqn:C; [|done];
    apply (token_kept_stored production response s); [done|];
    unfold handleAuthSuccess; rewrite scheduleTokenRefresh_stored;
    unfold getStoredToken, storeToken; by destruct production.
  - apply token_kept_logged_out, handleLogout_logged_out.
  - by destruct (success response).
  - destruct (success response); [|done]. by destruct (currentUser s).
  - destruct (carriesToken response) eqn:C; [|done].
    apply (token_kept_stored production response s); [done|].
    by rewrite scheduleTokenRefresh_stored.
Qed.

Lemma token_kept_step production jwtDecode s s' :
  step production jwtDecode s s' -> token_kept production s ->
  token_kept production s'.
Proof.
  intros Hstep Hs.
  destruct Hstep as [s c response now|s c error|s error|s t due Ht].
  - by apply token_kept_onResponse.
  - by apply token_kept_onError.
  - apply token_kept_logged_out. unfold loadUserProfile_error.
    apply clearAuthState_cleared.
  - done.
Qed.

Lemma token_kept_initializeAuth production jwtDecode now cookie localStorage :
  token_kept production
    (initializeAuth production jwtDecode now (fresh cookie localStorage)).
Proof.
  unfold initializeAuth. set (s0 := fresh cookie localStorage).
  destruct (getStoredToken production s0) as [[|c t]|] eqn:G;
    try (apply token_kept_logged_out, clearAuthState_cleared).
  destruct (isTokenValid jwtDecode (String c t) now);
    [|apply token_kept_logged_out, clearAuthState_cleared].
  intros _. exists c, t. rewrite scheduleTokenRefresh_stored. exact G.
Qed.

(** X20: in every state the service can reach, the authenticated flag is
    set only while a non-empty token is stored. *)
Theorem authenticated_has_token production jwtDecode s :
  reachable production jwtDecode s ->
  isAuthenticated s = true ->
  ∃ c t, getStoredToken production s = Some (String c t).
Proof.
  intros (cookie & localStorage & now & Hr).
  pose proof (token_kept_initializeAuth production jwtDecode now cookie
                localStorage) as H0.
  change (token_kept production s).
  induction Hr as [|s1 s2 s3 Hs _ IH]; [done|].
  apply IH. by eapply token_kept_step.
Qed.

Lemma authenticated_has_token_witness :
  reachable false Samples.decode Samples.session
  ∧ isAuthenticated Samples.session = true
  ∧ ∃ c t, getStoredToken false Samples.session = Some (String c t).
Proof.
  assert (R : reachable false Samples.decode Samples.session).
  { exists None, (Some "jwt"), 1000000. apply rtc_refl. }
  split; [exact R|]. split; [reflexivity|].
  by apply (authenticated_has_token false Samples.decode Samples.session R).
Defined.

(** X21: in every state the service can reach, a logout leaves nothing
    behind: no timer is pending, no role is granted, [refreshToken] fails at
    once without a request, and the application is told to disconnect its
    socket. *)
Theorem logout_leaves_nothing production jwtDecode s :
  reachable production jwtDecode s ->
  let s' := handleLogout production s in
  timers s' = ∅
  ∧ tokenRefreshTimer s' = None
  ∧ (∀ r, hasRole r s' = false)
  ∧ (∀ roles, hasAnyRole roles s' = false)
  ∧ refreshToken_start production s' = refresh_failed "No token available"
  ∧ AppComponent.onCurrentUser (currentUser s') = AppComponent.socket_disconnect.
Proof.
  intros Hr. cbv zeta.
  pose proof (held_clearAuthState production s (reachable_held _ _ _ Hr)) as Hh.
  destruct (clearTokenRefreshTimer_held _ Hh) as (Ht & Hn & _).
  destruct (handleLogout_clears production s) as (Hg & Hu & _).
  cbv zeta in *. unfold hasRole, hasAnyRole, refreshToken_start.
  rewrite Hg, Hu. unfold handleLogout. simpl. by rewrite Ht, Hn.
Qed.

Lemma logout_leaves_nothing_witness :
  reachable false Samples.decode Samples.session
  ∧ timers Samples.session ≠ ∅
  ∧ timers (handleLogout false Samples.session) = ∅.
Proof.
  assert (R : reachable false Samples.decode Samples.session).
  { exists None, (Some "jwt"), 1000000. apply rtc_refl. }
  split; [exact R|]. split.
  - intros H. apply (f_equal (fun m => m !! 0%nat)) in H. vm_compute in H.
    discriminate.
  - by apply (logout_leaves_nothing false Samples.decode Samples.session R).
Defined.

(** X22: [hasAnyRole] holds exactly when [hasRole] holds for one of the
    listed roles; with a one-element list they agree, and with an empty list
    or no current user [hasAnyRole] is false. *)
Theorem hasAnyRole_some (roles : list string) (s : Service) :
  (hasAnyRole roles s = true <-> ∃ r, r ∈ roles ∧ hasRole r s = true)
  ∧ (∀ r, hasAnyRole [r] s = hasRole r s)
  ∧ hasAnyRole [] s = false
  ∧ hasAnyRole roles (set_currentUser None s) = false.
Proof.
  unfold hasAnyRole, hasRole. split; [|split; [|split]].
  - destruct (currentUser s) as [user|].
    + rewrite bool_decide_eq_true. split.
      * intros Hin. exists (roleName (role user)). split; [done|].
        by apply bool_decide_eq_true.
      * by intros (r & Hin & <-%bool_decide_eq_true).
    + split; [done | by intros (r & _ & ?)].
  - intros r. destruct (currentUser s) as [user|]; [|done].
    apply bool_decide_ext. by rewrite list_elem_of_singleton.
  - destruct (currentUser s); [|done].
    apply bool_decide_eq_false. apply not_elem_of_nil.
  - done.
Qed.

(** X27: a token that has expired stays expired, and a token that is valid
    was valid at every earlier time. *)
Theorem isTokenValid_monotone jwtDecode (token : string) (now now' : Z) :
  now <= now' ->
  (isTokenValid jwtDecode token now' = true ->
   isTokenValid jwtDecode token now = true)
  ∧ (isTokenValid jwtDecode token now = false ->
     isTokenValid jwtDecode token now' = false).
Proof.
  intros Hle. unfold isTokenValid.
  destruct (jwtDecode token) as [[[e|]]|]; try done. simpl.
  split.
  - rewrite !Z.ltb_lt. lia.
  - rewrite !Z.ltb_ge. lia.
Qed.

Lemma isTokenValid_monotone_witness :
  1000000 <= 1500000
  ∧ isTokenValid Samples.decode "jwt" 1500000 = true
  ∧ isTokenValid Samples.decode "jwt" 1000000 = true.
Proof.
  split; [lia|]. split; [reflexivity|].
  by apply (isTokenValid_monotone Samples.decode "jwt" 1000000 1500000).
Defined.

(** X28: a response to login, register or resetPassword that reports
    success and carries a token leaves the service authenticated, with the
    user of the response as current user and the token readable from the
    store; any other response to these calls changes nothing. *)
Theorem sign_in_response production jwtDecode (call : Call)
    (response : AuthResponse) (now : Z) (s : Service) :
  call = login ∨ call = register ∨ call = resetPassword ->
  let s' := onResponse production jwtDecode call response now s in
  if carriesToken response
  then isAuthenticated s' = true
       ∧ currentUser s' = Some (data_user response)
       ∧ getStoredToken production s' = Some (data_token response)
  else s' = s.
Proof.
  intros Hc. cbv zeta.
  assert (onResponse production jwtDecode call response now s
          = if carriesToken response
            then handleAuthSuccess production jwtDecode (data_token response)
                   (data_user response) now s
            else s) as ->.
  { by destruct Hc as [->|[->| ->]]. }
  destruct (carriesToken response) eqn:C; [|done].
  unfold handleAuthSuccess. rewrite scheduleTokenRefresh_stored.
  destruct (scheduleTokenRefresh_frame jwtDecode (data_token response) now
              (set_currentUser (Some (data_user response))
                 (setAuthState (data_token response)
                    (storeToken production (data_token response) s))))
    as (-> & -> & _).
  unfold carriesToken in C. apply andb_true_iff in C as [_ C].
  unfold getStoredToken, storeToken.
  destruct (data_token response) as [|c t]; [done|]. by destruct production.
Qed.

Lemma sign_in_response_witness :
  let response :=
    mkAuthResponse true "ok" "jwt"
      (mkUser "u2" "Bob" "Roy" "bob@example.org" role_organizer true) in
  (login = login ∨ login = register ∨ login = resetPassword)
  ∧ isAuthenticated
      (onResponse true Samples.decode login response 1000000 (fresh None None))
    = true.
Proof.
  cbv zeta. split; [by left|].
  pose proof (sign_in_response true Samples.decode login
                (mkAuthResponse true "ok" "jwt"
                   (mkUser "u2" "Bob" "Roy" "bob@example.org" role_organizer true))
                1000000 (fresh None None) (or_introl eq_refl)) as H.
  cbv zeta in H. simpl in H. by destruct H as [H _].
Defined.

End AuthFurther.

(** ** The application component: page chrome and titles *)
Section AppFurther.
Import AppComponent.

Lemma prefix_split (route url : string) :
  String.prefix route url = true -> ∃ rest, url = route +:+ rest.
Proof.
  revert url. induction route as [|a route IH]; intros url H.
  - by exists url.
  - destruct url as [|b url]; [done|]. simpl in H.
    destruct (Ascii.ascii_dec a b) as [->|]; [|done].
    destruct (IH url H) as [rest ->]. by exists rest.
Qed.

Lemma hidden_iff (routes : list string) (url : string) :
  negb (existsb (fun route => startsWith url route) routes) = false
  <-> ∃ route, route ∈ routes ∧ startsWith url route = true.
Proof.
  rewrite negb_false_iff, existsb_exists.
  split; intros (route & Hin & H); exists route; split; try done;
    by apply list_elem_of_In.
Qed.

(** X23: the navigation bar is hidden exactly on the urls that start with
    one of the four entry routes and the footer exactly on those that start
    with /dashboard or /admin; no url hides both. *)
Theorem chrome_never_both_hidden (url : string) :
  (showNavbar url = false
   <-> ∃ route, route ∈ hideNavbarRoutes ∧ startsWith url route = true)
  ∧ (showFooter url = false
     <-> ∃ route, route ∈ hideFooterRoutes ∧ startsWith url route = true)
  ∧ (showNavbar url = true ∨ showFooter url = true).
Proof.
  split; [apply hidden_iff|]. split; [apply hidden_iff|].
  destruct (showNavbar url) eqn:N; [by left|]. right.
  apply hidden_iff in N as (route & Hin & H).
  apply prefix_split in H as [rest ->].
  unfold hideNavbarRoutes in Hin.
  repeat (apply elem_of_cons in Hin as [->|Hin]; [reflexivity|]).
  by apply elem_of_nil in Hin.
Qed.

(** X24: a url that starts with one of the routes of the table other than
    "/" gets the title of that route, and so does "/" itself; every title
    is 'Dynamic Event Hub' alone or the title of a route of the table
    followed by ' - Dynamic Event Hub'. *)
Theorem page_titles (url : string) :
  (∀ route t, (route, t) ∈ routeTitles -> route ≠ "/" ->
     startsWith url route = true ->
     updatePageTitle url = t +:+ " - Dynamic Event Hub")
  ∧ updatePageTitle "/" = "Home - Dynamic Event Hub"
  ∧ (updatePageTitle url = "Dynamic Event Hub"
     ∨ ∃ route t, (route, t) ∈ routeTitles
         ∧ updatePageTitle url = t +:+ " - Dynamic Event Hub").
Proof.
  split; [|split; [reflexivity|]].
  - intros route t Hin Hne H. apply prefix_split in H as [rest ->].
    unfold routeTitles in Hin.
    repeat (apply elem_of_cons in Hin as [[= -> ->]|Hin];
            [try done; by destruct rest|]).
    by apply elem_of_nil in Hin.
  - unfold updatePageTitle.
    destruct (matchedRoute url) as [route|] eqn:M; [|by left]. right.
    apply find_some in M as [Hin _]. apply list_elem_of_In in Hin.
    unfold routeTitles in Hin. simpl in Hin.
    repeat (apply elem_of_cons in Hin as [->|Hin];
            [eexists _, _; split; [|reflexivity];
             unfold routeTitles; rewrite !elem_of_cons; tauto|]).
    by apply elem_of_nil in Hin.
Qed.

Lemma page_titles_witness :
  ("/events", "Events") ∈ routeTitles
  ∧ "/events" ≠ "/"
  ∧ startsWith "/events/42/edit" "/events" = true
  ∧ updatePageTitle "/events/42/edit" = "Events - Dynamic Event Hub".
Proof.
  assert (I : ("/events", "Events") ∈ routeTitles).
  { apply list_elem_of_further, list_elem_of_here. }
  assert (N : "/events" ≠ "/") by discriminate.
  split; [exact I|]. split; [exact N|]. split; [reflexivity|].
  destruct (page_titles "/events/42/edit") as [H _].
  by rewrite (H "/events" "Events" I N eq_refl).
Defined.

End AppFurther.
